(** * Website analyzer: rule-based scoring and heuristic extraction

    A shallow embedding of the scoring core of the analyzer
    ([website_analyzer/utils/helpers.py], [modules/accessibility.py],
    [modules/security.py], [core/analyzer.py]) together with the properties
    checked against it.

    Conventions of the embedding:
    - a Python [str] is a [string]; its characters are the code points below
      256, which is where every literal, character class and keyword of the
      analysed code lives;
    - a Python [int] is a [Z], a [float] is a binary64 [float] with the
      operations of the machine;
    - a [dict] read with [.get(key, default)] is a record of [option] fields
      or a [gmap]; a [set] is a [gset];
    - code that can raise returns a [result]. *)

From Stdlib Require Import ZArith Floats Ascii.
From stdpp Require Import gmap strings list pretty sorting.

Set Warnings "-inexact-float,-register-all".
Set Default Proof Using "Type".

Local Open Scope Z_scope.

(** ** Python runtime *)

Module Py.

Inductive exn : Type :=
| ValueError
| TypeError
| OverflowError
| ZeroDivisionError.

Inductive result (A : Type) : Type :=
| Ok (a : A)
| Raise (e : exn).
Global Arguments Ok {A} a.
Global Arguments Raise {A} e.

Global Instance result_ret : MRet result := fun A a => Ok a.
Global Instance result_bind : MBind result := fun A B f m =>
  match m with
  | Ok a => f a
  | Raise e => Raise e
  end.

Definition raises {A} (m : result A) : bool :=
  match m with
  | Ok _ => false
  | Raise _ => true
  end.

(** *** Strings *)

Definition chr_eqb (c d : ascii) : bool := Stdlib.Strings.Ascii.eqb c d.

(** [str.isspace] on one character, which is also the class [\s] of
    [re]: TAB..CR, FS..US, SPACE, NEL and NBSP are the white space
    characters below 256. *)
Definition isspace (c : ascii) : bool :=
  let n := nat_of_ascii c in
  ((9 <=? n) && (n <=? 13) || (28 <=? n) && (n <=? 32)
   || (n =? 133) || (n =? 160))%nat.

(** The white space [int()] skips around a literal: of the ASCII
    characters only TAB..CR and SPACE (the separators FS..US are not
    skipped), and the white space above ASCII. *)
Definition int_space (c : ascii) : bool :=
  let n := nat_of_ascii c in
  ((9 <=? n) && (n <=? 13) || (n =? 32) || (n =? 133) || (n =? 160))%nat.

Definition isdigit (c : ascii) : bool :=
  let n := nat_of_ascii c in ((48 <=? n) && (n <=? 57))%nat.

Definition islower (c : ascii) : bool :=
  let n := nat_of_ascii c in ((97 <=? n) && (n <=? 122))%nat.

Definition isupper (c : ascii) : bool :=
  let n := nat_of_ascii c in ((65 <=? n) && (n <=? 90))%nat.

(** [str.lower] on one character: the upper-case letters below 256 are
    A..Z and the accented capitals 192..222 without the multiplication
    sign 215. *)
Definition lower (c : ascii) : ascii :=
  let n := nat_of_ascii c in
  if (isupper c || (192 <=? n) && (n <=? 222) && negb (n =? 215))%nat
  then ascii_of_nat (n + 32) else c.

Fixpoint str_lower (s : string) : string :=
  match s with
  | String c s' => String (lower c) (str_lower s')
  | EmptyString => EmptyString
  end.

(** [s.startswith(prefix)] *)
Definition startswith (s prefix : string) : bool := String.prefix prefix s.

(** [s[i:j]] for [0 <= i <= j]; like the slice it is cut at the end of
    the string. *)
Definition slice (s : string) (i j : nat) : string :=
  String.substring i (j - i) s.

(** Removal of the leading characters in [space], and the same at both
    ends. *)
Fixpoint lstrip_with (space : ascii → bool) (s : string) : string :=
  match s with
  | String c s' => if space c then lstrip_with space s' else s
  | EmptyString => EmptyString
  end.

Definition strip_with (space : ascii → bool) (s : string) : string :=
  String.rev (lstrip_with space (String.rev (lstrip_with space s))).

(** [s.strip()] *)
Definition strip (s : string) : string := strip_with isspace s.

(** *** Integers *)

(** The value of a character as a digit; 37 for a character that is a
    digit in no base. *)
Definition digit_value (c : ascii) : Z :=
  let n := Z.of_nat (nat_of_ascii c) in
  if isdigit c then n - 48
  else if islower c then n - 97 + 10
  else if isupper c then n - 65 + 10
  else 37.

(** The digits of an integer literal, where single underscores may
    separate digits: [prev] is whether the previous character was an
    underscore, [acc] the value read so far. *)
Fixpoint int_digits (base : Z) (s : string) (prev : bool) (acc : Z)
    : option Z :=
  match s with
  | EmptyString => if prev then None else Some acc
  | String c s' =>
      if chr_eqb c "_" then
        if prev then None else int_digits base s' true acc
      else if digit_value c <? base then
        int_digits base s' false (acc * base + digit_value c)
      else None
  end.

(** The sign in front of an integer literal. *)
Definition int_sign (s : string) : Z * string :=
  match s with
  | String c s' =>
      if chr_eqb c "+" then (1, s')
      else if chr_eqb c "-" then (-1, s')
      else (1, s)
  | EmptyString => (1, s)
  end.

(** For base 16 an optional [0x] or [0X], after which one underscore is
    allowed. *)
Definition int_prefix (base : Z) (s : string) : string :=
  match s with
  | String c (String x s') =>
      if chr_eqb c "0" && (base =? 16) && (chr_eqb x "x" || chr_eqb x "X")
      then
        match s' with
        | String u s'' => if chr_eqb u "_" then s'' else s'
        | EmptyString => s'
        end
      else s
  | _ => s
  end.

(** The number of digits of a literal, its underscores not counted. *)
Fixpoint digit_count (s : string) : Z :=
  match s with
  | EmptyString => 0
  | String c s' => (if chr_eqb c "_" then 0 else 1) + digit_count s'
  end.

(** [sys.get_int_max_str_digits()], at its default: a literal with more
    digits is refused in every base that is not a power of two
    (interpreters from 3.11 on, and the security releases of 3.7 to
    3.10). *)
Definition int_max_str_digits : Z := 4300.

Definition binary_base (base : Z) : bool := Z.land base (base - 1) =? 0.

(** [int(s, base)] for [base] 10 or 16: white space around, a sign, the
    prefix, then the digits, of which there is at least one and which do
    not start with an underscore; in base 10 there are at most
    [int_max_str_digits] of them. *)
Definition int_of_str (s : string) (base : Z) : result Z :=
  let '(sign, s) := int_sign (strip_with int_space s) in
  let s := int_prefix base s in
  match s with
  | EmptyString => Raise ValueError
  | String c _ =>
      if chr_eqb c "_" then Raise ValueError
      else
        match int_digits base s false 0 with
        | Some n =>
            if negb (binary_base base) && (int_max_str_digits <? digit_count s)
            then Raise ValueError
            else Ok (sign * n)
        | None => Raise ValueError
        end
  end.

(** *** Floats *)

(** The binary64 number nearest to [p/q], ties to even; an infinity when
    [p/q] is out of range.  The quotient is computed with at least 56
    significant bits and a sticky bit, then rounded once. *)
Definition nearest_float (p : Z) (q : positive) : spec_float :=
  match p with
  | Z0 => S754_zero false
  | _ =>
      let k := Z.max 0 (56 + Z.log2 (Zpos q) - Z.log2 (Z.abs p)) in
      let num := Z.abs p * 2 ^ k in
      let m := num / Zpos q in
      let sticky := if num mod Zpos q =? 0 then 0 else 1 in
      binary_normalize prec emax (Z.sgn p * (2 * m + sticky)) (- k - 1) false
  end.

Definition finite_or_overflow (x : spec_float) : result float :=
  match x with
  | S754_infinity _ => Raise OverflowError
  | _ => Ok (SF2Prim x)
  end.

(** [float(n)] for an [int]: "int too large to convert to float". *)
Definition float_of_int (n : Z) : result float :=
  finite_or_overflow (nearest_float n 1).

(** [a / b] on two [int]s. *)
Definition int_truediv (a b : Z) : result float :=
  match b with
  | Z0 => Raise ZeroDivisionError
  | Zpos q => finite_or_overflow (nearest_float a q)
  | Zneg q => finite_or_overflow (nearest_float (- a) q)
  end.

(** [x / y] on two [float]s. *)
Definition float_truediv (x y : float) : result float :=
  if PrimFloat.eqb y 0 then Raise ZeroDivisionError else Ok (x / y)%float.

(** [n / y] for an [int] and a [float]. *)
Definition int_truediv_float (n : Z) (y : float) : result float :=
  x ← float_of_int n; float_truediv x y.

(** [n >= x] for an [int] and a [float], which Python decides on the exact
    values. *)
Definition int_ge_float (n : Z) (x : float) : bool :=
  match Prim2SF x with
  | S754_zero _ => 0 <=? n
  | S754_infinity s => s
  | S754_nan => false
  | S754_finite s m e =>
      let sm := if s then Zneg m else Zpos m in
      if 0 <=? e then sm * 2 ^ e <=? n else sm <=? n * 2 ^ (- e)
  end.

(** [p/q] rounded to an integer, ties to even. *)
Definition round_half_even (p : Z) (q : positive) : Z :=
  let n := p / Zpos q in
  match 2 * (p mod Zpos q) ?= Zpos q with
  | Lt => n
  | Gt => n + 1
  | Eq => if Z.even n then n else n + 1
  end.

(** [round(x, 1)]: the exact value of [x] is rounded to one decimal, ties
    to even, and the decimal is converted back to the nearest float. *)
Definition round1 (x : float) : float :=
  match Prim2SF x with
  | S754_finite s m e =>
      let sm := if s then Zneg m else Zpos m in
      let n := if 0 <=? e then 10 * sm * 2 ^ e
               else round_half_even (10 * sm) (Z.to_pos (2 ^ (- e))) in
      if n =? 0 then SF2Prim (S754_zero s) else SF2Prim (nearest_float n 10)
  | _ => x
  end.

(** [v ** w] on floats.  The interpreter settles the special cases itself
    and leaves the rest to the platform's [pow], here [libm_pow]; a result
    out of range is an [OverflowError].  The analysed code only raises
    positive finite bases to the finite power 2.4, so the cases of a zero,
    negative or infinite base, which need more of the interpreter, are
    given to [libm_pow] as well. *)
Definition float_pow (libm_pow : float → float → float) (v w : float)
    : result float :=
  if PrimFloat.eqb w 0 then Ok 1%float
  else if is_nan v then Ok v
  else if is_nan w then Ok (if PrimFloat.eqb v 1 then 1%float else w)
  else if PrimFloat.eqb v 1 then Ok 1%float
  else
    let x := libm_pow v w in
    if is_infinity x && negb (is_infinity v) && negb (is_infinity w)
    then Raise OverflowError
    else Ok x.

End Py.
Import Py.

(** ** Regular expressions

    The fragment of [re] the analysed patterns are written in, with the
    matching order of a backtracking matcher: alternatives left to right,
    repetitions greedy.  Repetition is over character classes, which is all
    the patterns use. *)

Module Re.

Inductive regex : Type :=
| Chr (c : ascii)
| In (p : ascii → bool)
| Star (p : ascii → bool)
| Cat (r1 r2 : regex)
| Alt (r1 r2 : regex)
| Opt (r : regex)
| Group (i : nat) (r : regex)
| Bol.

Infix "·" := Cat (at level 40, left associativity).

(** [[..]+] *)
Definition Plus (p : ascii → bool) : regex := In p · Star p.

(** A literal string, and the same under [re.I]. *)
Fixpoint Lit (s : string) : regex :=
  match s with
  | EmptyString => Star (fun _ => false)
  | String c EmptyString => Chr c
  | String c s' => Chr c · Lit s'
  end.

Fixpoint LitI (s : string) : regex :=
  match s with
  | EmptyString => Star (fun _ => false)
  | String c EmptyString => In (fun d => chr_eqb (lower d) (lower c))
  | String c s' => In (fun d => chr_eqb (lower d) (lower c)) · LitI s'
  end.

Record Match : Type := {
  start : nat;
  end_ : nat;
  groups : gmap nat string
}.

(** [m.group(i)], [None] for a group that took no part in the match. *)
Definition group (m : Match) (i : nat) : option string := groups m !! i.

Section exec.
Context {A : Type}.

Fixpoint star (p : ascii → bool) (s : string) (pos : nat)
    (k : string → nat → option A) : option A :=
  match s with
  | String c s' =>
      if p c then
        match star p s' (S pos) k with
        | Some a => Some a
        | None => k s pos
        end
      else k s pos
  | EmptyString => k s pos
  end.

(** [exec r s pos g k]: match [r] at offset [pos], where [s] is the rest
    of the subject, then go on with [k]; the first way that makes [k]
    succeed wins. *)
Fixpoint exec (r : regex) (s : string) (pos : nat) (g : gmap nat string)
    (k : string → nat → gmap nat string → option A) : option A :=
  match r with
  | Chr c =>
      match s with
      | String d s' => if chr_eqb c d then k s' (S pos) g else None
      | EmptyString => None
      end
  | In p =>
      match s with
      | String d s' => if p d then k s' (S pos) g else None
      | EmptyString => None
      end
  | Star p => star p s pos (fun s' pos' => k s' pos' g)
  | Cat r1 r2 => exec r1 s pos g (fun s' pos' g' => exec r2 s' pos' g' k)
  | Alt r1 r2 =>
      match exec r1 s pos g k with
      | Some a => Some a
      | None => exec r2 s pos g k
      end
  | Opt r1 =>
      match exec r1 s pos g k with
      | Some a => Some a
      | None => k s pos g
      end
  | Group i r1 =>
      exec r1 s pos g (fun s' pos' g' =>
        k s' pos' (<[i := String.substring 0 (pos' - pos) s]> g'))
  | Bol => if (pos =? 0)%nat then k s pos g else None
  end.
End exec.

(** A match that starts exactly at offset [pos]. *)
Definition match_at (r : regex) (s : string) (pos : nat) : option Match :=
  exec r s pos ∅ (fun _ pos' g =>
    Some {| start := pos; end_ := pos'; groups := g |}).

Fixpoint search_from (r : regex) (s : string) (pos : nat) : option Match :=
  match match_at r s pos with
  | Some m => Some m
  | None =>
      match s with
      | String _ s' => search_from r s' (S pos)
      | EmptyString => None
      end
  end.

(** [re.search(r, s)]: the leftmost match. *)
Definition search (r : regex) (s : string) : option Match :=
  search_from r s 0.

(** The scan behind [re.finditer]: [skip] characters of the previous
    match are still to be passed before the next attempt.  (An empty match
    moves on by one character; no analysed pattern matches the empty
    string.) *)
Fixpoint finditer_from (r : regex) (s : string) (pos skip : nat)
    : list Match :=
  match skip with
  | S n =>
      match s with
      | String _ s' => finditer_from r s' (S pos) n
      | EmptyString => []
      end
  | O =>
      match match_at r s pos with
      | Some m =>
          m :: match s with
               | String _ s' =>
                   finditer_from r s' (S pos) (pred (end_ m - pos))
               | EmptyString => []
               end
      | None =>
          match s with
          | String _ s' => finditer_from r s' (S pos) 0
          | EmptyString => []
          end
      end
  end.

(** [re.finditer(r, s)]: the non-overlapping matches, left to right. *)
Definition finditer (r : regex) (s : string) : list Match :=
  finditer_from r s 0 0.

End Re.
Import Re.

(** ** utils/helpers.py *)

Module Helpers.

(** *** [calculate_contrast_ratio] *)

(** [r'rgb\(\s*(\d+)\s*,\s*(\d+)\s*,\s*(\d+)\s*\)'] *)
Definition rgb_pattern : regex :=
  Lit "rgb(" · Star isspace · Group 1 (Plus isdigit) · Star isspace
  · Chr "," · Star isspace · Group 2 (Plus isdigit) · Star isspace
  · Chr "," · Star isspace · Group 3 (Plus isdigit) · Star isspace
  · Chr ")".

(** [int(text, base) / 255.0], with [text] the slice or the group at
    hand; a group that is not there stands for [None]. *)
Definition channel (text : option string) (base : Z) : result float :=
  match text with
  | Some t => n ← int_of_str t base; int_truediv_float n 255
  | None => Raise TypeError
  end.

(** The nested [parse_color].  The last line returns the integers
    [0, 0, 0], which the arithmetic that follows treats as [0.0]. *)
Definition parse_color (color : string)
    : result (float * float * float) :=
  if startswith color "#" then
    let color := slice color 1 (String.length color) in
    r ← channel (Some (slice color 0 2)) 16;
    g ← channel (Some (slice color 2 4)) 16;
    b ← channel (Some (slice color 4 6)) 16;
    mret (r, g, b)
  else if startswith color "rgb" then
    match search rgb_pattern color with
    | Some m =>
        r ← channel (group m 1) 10;
        g ← channel (group m 2) 10;
        b ← channel (group m 3) 10;
        mret (r, g, b)
    | None => mret (0, 0, 0)%float
    end
  else mret (0, 0, 0)%float.

Section luminance.
(** The platform's [pow] behind [**]. *)
Variable libm_pow : float → float → float.

Definition adjust_color_value (value : float) : result float :=
  if PrimFloat.leb value 0.03928 then Ok (value / 12.92)%float
  else float_pow libm_pow ((value + 0.055) / 1.055)%float 2.4%float.

Definition get_luminance (r g b : float) : result float :=
  r ← adjust_color_value r;
  g ← adjust_color_value g;
  b ← adjust_color_value b;
  mret (0.2126 * r + 0.7152 * g + 0.0722 * b)%float.

Definition calculate_contrast_ratio (color1 color2 : string)
    : result float :=
  '(r1, g1, b1) ← parse_color color1;
  '(r2, g2, b2) ← parse_color color2;
  l1 ← get_luminance r1 g1 b1;
  l2 ← get_luminance r2 g2 b2;
  if PrimFloat.ltb l2 l1 then float_truediv (l1 + 0.05) (l2 + 0.05)
  else float_truediv (l2 + 0.05) (l1 + 0.05).
End luminance.

(** Specification side: a color whose syntax is not recognized and that
    does not start with [#]; and, for the text after a [#], whether its
    three pairs are hexadecimal literals for [int]. *)
Definition unrecognized (color : string) : Prop :=
  startswith color "#" = false
  ∧ (startswith color "rgb" = false ∨ search rgb_pattern color = None).

Definition hex_pairs_valid (digits : string) : bool :=
  forallb (fun i => negb (raises (int_of_str (slice digits i (i + 2)) 16)))
    [0; 2; 4]%nat.

(** [[0-9a-fA-F]] *)
Definition isxdigit (c : ascii) : bool :=
  let n := nat_of_ascii c in
  (isdigit c || (97 <=? n) && (n <=? 102) || (65 <=? n) && (n <=? 70))%nat.

(** Specification side: [#] and six hexadecimal digits, whatever
    follows. *)
Definition hex_color (color : string) : bool :=
  match color with
  | String h (String r1 (String r2 (String g1 (String g2
      (String b1 (String b2 _)))))) =>
      chr_eqb h "#" && forallb isxdigit [r1; r2; g1; g2; b1; b2]
  | _ => false
  end.

(** Specification side: a color that parses to three channel values
    between 0 and 255, each divided by 255. *)
Definition in_gamut (color : string) : Prop :=
  ∃ (r g b : Z) (x y z : float),
    (0 ≤ r ≤ 255 ∧ 0 ≤ g ≤ 255 ∧ 0 ≤ b ≤ 255)
    ∧ int_truediv_float r 255 = Ok x
    ∧ int_truediv_float g 255 = Ok y
    ∧ int_truediv_float b 255 = Ok z
    ∧ parse_color color = Ok (x, y, z).

(** Specification side: what the contrast computation needs of the
    platform's [pow]: a base in (0, 1] raised to 2.4 stays in [0, 1]. *)
Definition unit_pow (libm_pow : float → float → float) : Prop :=
  ∀ v : float,
    PrimFloat.ltb 0 v = true → PrimFloat.leb v 1 = true →
    PrimFloat.leb 0 (libm_pow v 2.4%float) = true
    ∧ PrimFloat.leb (libm_pow v 2.4%float) 1 = true.

(** Specification side: a binary64 number that is a zero or above zero,
    and one that is above zero. *)
Definition zero_or_positive (x : spec_float) : Prop :=
  match x with
  | S754_zero _ => True
  | S754_finite s _ _ | S754_infinity s => s = false
  | S754_nan => False
  end.

Definition positive_float (x : spec_float) : Prop :=
  match x with
  | S754_finite s _ _ | S754_infinity s => s = false
  | _ => False
  end.

(** *** [extract_css_colors] *)

(** [[#0-9a-zA-Z(,)\s\.]] *)
Definition css_value_char (c : ascii) : bool :=
  chr_eqb c "#" || isdigit c || islower c || isupper c || chr_eqb c "("
  || chr_eqb c "," || chr_eqb c ")" || isspace c || chr_eqb c ".".

(** [[a-zA-Z]] *)
Definition letter (c : ascii) : bool := islower c || isupper c.

Definition background_patterns : list regex :=
  [ Lit "background" · Opt (Group 1 (Lit "-color")) · Chr ":"
    · Star isspace · Group 2 (Plus css_value_char);
    Lit "background" · Opt (Group 1 (Lit "-color")) · Chr ":"
    · Star isspace · Group 2 (Plus letter) ].

Definition text_patterns : list regex :=
  [ Lit "color:" · Star isspace · Group 1 (Plus css_value_char) ].

Definition link_patterns : list regex :=
  [ Chr "a" · Star isspace · Chr "{" · Star (fun c => negb (chr_eqb c "}"))
    · Lit "color:" · Star isspace · Group 1 (Plus css_value_char);
    Lit "a:link" · Star isspace · Chr "{"
    · Star (fun c => negb (chr_eqb c "}"))
    · Lit "color:" · Star isspace · Group 1 (Plus css_value_char) ].

(** One of the three collecting loops: for every pattern and every match,
    the group [i], stripped, is appended unless it is empty or one of the
    [excluded] keywords. *)
Definition collect (patterns : list regex) (i : nat)
    (excluded : list string) (css_content : string) : list string :=
  pattern ← patterns;
  m ← finditer pattern css_content;
  match group m i with
  | Some text =>
      if bool_decide (text = "") then []
      else
        let color := strip text in
        if bool_decide (color ≠ "")
           && forallb (fun kw => bool_decide (color ≠ kw)) excluded
        then [color] else []
  | None => []
  end.

Record colors : Type := {
  background : list string;
  text : list string;
  link : list string
}.

(** [list(set(l))]: the distinct elements, in the order of the set. *)
Definition list_set (l : list string) : list string :=
  elements (list_to_set l : gset string).

Definition extract_css_colors (css_content : string) : colors :=
  {| background :=
       list_set (collect background_patterns 2
                   ["transparent"; "inherit"; "initial"] css_content);
     text :=
       list_set (collect text_patterns 1 ["inherit"; "initial"] css_content);
     link :=
       list_set (collect link_patterns 1 ["inherit"; "initial"] css_content)
  |}.

(** *** [check_heading_hierarchy] *)

(** [check_heading_hierarchy(headings)]: the two early returns, then the
    loop over [range(len(levels) - 1)] that returns at the first skipped
    level. *)
Definition check_heading_hierarchy (headings : list (Z * string)) : bool :=
  match headings with
  | [] => false
  | _ =>
      let levels := headings.*1 in
      if negb (bool_decide (1 ∈ levels)) then true
      else
        existsb
          (fun i => bool_decide (levels !!! (i + 1)%nat - levels !!! i > 1))
          (seq 0 (length levels - 1))
  end.

(** Specification side: some consecutive pair of levels goes up by more
    than one. *)
Definition skips_level (levels : list Z) : Prop :=
  ∃ (i : nat) (a b : Z),
    levels !! i = Some a ∧ levels !! S i = Some b ∧ b - a > 1.

End Helpers.
Import Helpers.

(** ** The parsed document

    The tree the HTML parser hands to the analyzers, with the queries the
    analyzers make.  An attribute value is a string: the attributes read
    below ([alt], [role], [summary], [action], [href], ...) are all
    single-valued.  A string of the tree has a class: ordinary text is a
    [NavigableString] proper, here [Plain], and the parser gives the text
    inside a [style], [script], [template], [rt] or [rp] element, a
    comment, a CDATA section, a declaration, a doctype and a processing
    instruction a subclass of their own. *)

Module Soup.

Inductive string_class : Type :=
| Plain
| CData
| Comment
| Declaration
| Doctype
| ProcessingInstruction
| Stylesheet
| Script
| TemplateString
| RubyTextString
| RubyParenthesisString.

Global Instance string_class_eq_dec : EqDecision string_class.
Proof. solve_decision. Defined.

Inductive node : Type :=
| Tag (name : string) (attrs : gmap string string) (contents : list node)
| NavigableString (cls : string_class) (s : string).

(** All nodes below [n], in document order. *)
Fixpoint descendants (n : node) : list node :=
  match n with
  | Tag _ _ contents => c ← contents; c :: descendants c
  | NavigableString _ _ => []
  end.

(** [tag.get(key)] *)
Definition get (n : node) (key : string) : option string :=
  match n with
  | Tag _ attrs _ => attrs !! key
  | NavigableString _ _ => None
  end.

Definition name (n : node) : string :=
  match n with
  | Tag nm _ _ => nm
  | NavigableString _ _ => ""
  end.

(** [tag.string] *)
Fixpoint string_ (n : node) : option string :=
  match n with
  | NavigableString _ s => Some s
  | Tag _ _ [c] => string_ c
  | Tag _ _ _ => None
  end.

(** The filters of [find_all]; only tags are ever selected. *)
Definition named (nm : string) (n : node) : bool :=
  match n with
  | Tag nm' _ _ => bool_decide (nm' = nm)
  | NavigableString _ _ => false
  end.

(** [attrs={key: True}] *)
Definition has_attr (key : string) (n : node) : bool :=
  match n with
  | Tag _ attrs _ => bool_decide (is_Some (attrs !! key))
  | NavigableString _ _ => false
  end.

(** [attrs={key: value}] *)
Definition attr_is (key value : string) (n : node) : bool :=
  bool_decide (get n key = Some value).

(** [attrs={key: re.compile(...)}] *)
Definition attr_search (key : string) (r : regex) (n : node) : bool :=
  match get n key with
  | Some v => bool_decide (is_Some (search r v))
  | None => false
  end.

Definition find_all (n : node) (p : node → bool) : list node :=
  List.filter p (descendants n).

Definition find (n : node) (p : node → bool) : option node :=
  head (find_all n p).

End Soup.
Import Soup.

(** ** modules/accessibility.py *)

Module Accessibility.

Module Images.
Record t : Type := {
  total : nat;
  with_alt : nat;
  with_empty_alt : nat;
  without_alt : nat;
  decorative_properly_marked : nat
}.
End Images.

(** The dictionary [sr] of [check_screen_reader_support], without the
    count [sr_only_content], which is taken on the multi-valued [class]
    attribute. *)
Record ScreenReader : Type := {
  images : Images.t;
  aria_labels : nat;
  aria_describedby : nat;
  aria_labelledby : nat
}.

Definition check_screen_reader_support (soup : node) : ScreenReader :=
  let images := find_all soup (named "img") in
  let images_analysis :=
    {| Images.total := length images;
       Images.with_alt :=
         length (List.filter
                   (fun img => bool_decide (get img "alt" ≠ None)) images);
       Images.with_empty_alt :=
         length (List.filter
                   (fun img => bool_decide (get img "alt" = Some "")) images);
       Images.without_alt :=
         length (List.filter
                   (fun img => bool_decide (get img "alt" = None)) images);
       Images.decorative_properly_marked :=
         length (List.filter
                   (fun img =>
                      bool_decide (get img "alt" = Some "")
                      && bool_decide (get img "role" = Some "presentation"))
                   images) |} in
  {| images := images_analysis;
     aria_labels := length (find_all soup (has_attr "aria-label"));
     aria_describedby := length (find_all soup (has_attr "aria-describedby"));
     aria_labelledby := length (find_all soup (has_attr "aria-labelledby")) |}.

Module Tables.
Record t : Type := {
  total : nat;
  with_headers : nat;
  with_caption : nat;
  with_summary : nat;
  data_tables : nat;
  layout_tables : nat
}.
End Tables.

(** A value read as a condition: [None] and the empty string count as
    false. *)
Definition truthy (v : option string) : bool :=
  match v with
  | Some v => bool_decide (v ≠ "")
  | None => false
  end.

(** The body of the loop of [_analyze_tables]. *)
Definition analyze_table (table_analysis : Tables.t) (table : node)
    : Tables.t :=
  let incr_if (b : bool) (n : nat) : nat := if b then (n + 1)%nat else n in
  let has_th := bool_decide (is_Some (find table (named "th"))) in
  {| Tables.total := Tables.total table_analysis;
     Tables.with_headers :=
       incr_if has_th (Tables.with_headers table_analysis);
     Tables.with_caption :=
       incr_if (bool_decide (is_Some (find table (named "caption"))))
         (Tables.with_caption table_analysis);
     Tables.with_summary :=
       incr_if (truthy (get table "summary"))
         (Tables.with_summary table_analysis);
     Tables.data_tables :=
       incr_if (has_th || bool_decide (get table "role" = Some "table"))
         (Tables.data_tables table_analysis);
     Tables.layout_tables :=
       incr_if (negb (has_th || bool_decide (get table "role" = Some "table")))
         (Tables.layout_tables table_analysis) |}.

Definition _analyze_tables (soup : node) : Tables.t :=
  let tables := find_all soup (named "table") in
  foldl analyze_table
    {| Tables.total := length tables;
       Tables.with_headers := 0;
       Tables.with_caption := 0;
       Tables.with_summary := 0;
       Tables.data_tables := 0;
       Tables.layout_tables := 0 |}
    tables.

(** What [check_wcag_compliance] reads of the findings of the earlier
    checks. *)
Record findings : Type := {
  lang_attribute : string;
  heading_hierarchy_issues : bool;
  screen_reader : ScreenReader;
  total_inputs : nat;
  inputs_with_labels : nat;
  (** [color_contrast.get("has_issues", True)] *)
  has_issues : option bool;
  tabindex_issues : list string
}.

Module Level.
Record t : Type := {
  score : Z;
  total : Z;
  percentage : float;
  passed : bool
}.
End Level.

(** [round((score / total) * 100, 1)] for the positive constant [total];
    the scores at hand are far from the range where the division
    overflows. *)
Definition percentage_of (score : Z) (total : positive) : float :=
  round1 (SF2Prim (nearest_float score total) * 100)%float.

Record wcag_compliance : Type := {
  level_a : Level.t;
  level_aa : Level.t
}.

Definition check_wcag_compliance (accessibility : findings)
    : wcag_compliance :=
  let level_a_score := 0 in
  let level_a_total := 10%positive in
  let level_a_score :=
    if bool_decide (lang_attribute accessibility ≠ "Missing")
    then level_a_score + 1 else level_a_score in
  let level_a_score :=
    let images := images (screen_reader accessibility) in
    if bool_decide (Images.without_alt images = 0%nat)
    then level_a_score + 1 else level_a_score in
  let level_a_score :=
    if negb (heading_hierarchy_issues accessibility)
    then level_a_score + 1 else level_a_score in
  let level_a_score :=
    if bool_decide (0 < total_inputs accessibility)%nat
       && bool_decide (inputs_with_labels accessibility
                       = total_inputs accessibility)
    then level_a_score + 1 else level_a_score in
  let level_a_score := level_a_score + 6 in
  let level_aa_score := level_a_score in
  let level_aa_total := 15%positive in
  let level_aa_score :=
    if negb (default true (has_issues accessibility))
    then level_aa_score + 1 else level_aa_score in
  let level_aa_score :=
    if bool_decide (length (tabindex_issues accessibility) = 0%nat)
    then level_aa_score + 1 else level_aa_score in
  let level_aa_score := level_aa_score + 2 in
  {| level_a :=
       {| Level.score := level_a_score;
          Level.total := Zpos level_a_total;
          Level.percentage := percentage_of level_a_score level_a_total;
          Level.passed := int_ge_float level_a_score (10 * 0.8)%float |};
     level_aa :=
       {| Level.score := level_aa_score;
          Level.total := Zpos level_aa_total;
          Level.percentage := percentage_of level_aa_score level_aa_total;
          Level.passed := int_ge_float level_aa_score (15 * 0.8)%float |} |}.

End Accessibility.

(** ** modules/security.py *)

Module Security.

(** What the collaborators hand over: [response.headers], a dictionary
    that ignores the case of its keys and is kept here under lower-case
    names; [urlparse(self.url)]; and the outcome of the TLS handshake with
    the host, which is either the certificate data the check uses or the
    text of the exception. *)
Definition headers_get (headers : gmap string string) (key dflt : string)
    : string :=
  default dflt (headers !! str_lower key).

Record ParseResult : Type := {
  scheme : string;
  netloc : string
}.

Inductive tls_outcome : Type :=
| Certificate (days_to_expiry : Z)
| TlsError (message : string).

Module MixedContent.
Record t : Type := {
  status : string;
  items : option (list (gmap string string));
  count : option nat
}.
End MixedContent.

Record FormDesc : Type := {
  action : string;
  method : string;
  issues : list string
}.

Module Forms.
Record t : Type := {
  total : nat;
  with_csrf_protection : nat;
  with_https : nat;
  with_autocomplete_off : nat;
  insecure_forms : list FormDesc
}.
End Forms.

(** The dictionary [self.security]; a key that is not set is [None].  The
    keys no later step reads ([security_headers_percentage], the
    certificate details, [inline_scripts], [has_unsafe_inline],
    [xss_risk]) are left out. *)
Record t : Type := {
  headers : option (list (string * string));
  missing_security_headers : option nat;
  present_security_headers : option nat;
  https_enabled : option bool;
  ssl_issues : option (list string);
  potential_xss_vectors : option (list (gmap string string));
  mixed_content : option MixedContent.t;
  forms : option Forms.t;
  score : option Z;
  max_score : option Z;
  deductions : option (list string);
  rating : option string
}.

(** [self.security = {}] *)
Definition empty : t :=
  {| headers := None; missing_security_headers := None;
     present_security_headers := None; https_enabled := None;
     ssl_issues := None; potential_xss_vectors := None;
     mixed_content := None; forms := None; score := None;
     max_score := None; deductions := None; rating := None |}.

Definition check_security_headers (response_headers : gmap string string)
    (security : t) : t :=
  let security_headers :=
    [ ("Strict-Transport-Security",
        headers_get response_headers "Strict-Transport-Security" "Missing");
      ("Content-Security-Policy",
        headers_get response_headers "Content-Security-Policy" "Missing");
      ("X-Content-Type-Options",
        headers_get response_headers "X-Content-Type-Options" "Missing");
      ("X-Frame-Options",
        headers_get response_headers "X-Frame-Options" "Missing");
      ("X-XSS-Protection",
        headers_get response_headers "X-XSS-Protection" "Missing");
      ("Referrer-Policy",
        headers_get response_headers "Referrer-Policy" "Missing");
      ("Permissions-Policy",
        headers_get response_headers "Permissions-Policy"
          (headers_get response_headers "Feature-Policy" "Missing")) ] in
  let missing_headers :=
    length (List.filter (fun value => bool_decide (value = "Missing"))
              security_headers.*2) in
  let present_headers := (length security_headers - missing_headers)%nat in
  {| headers := Some security_headers;
     missing_security_headers := Some missing_headers;
     present_security_headers := Some present_headers;
     https_enabled := https_enabled security;
     ssl_issues := ssl_issues security;
     potential_xss_vectors := potential_xss_vectors security;
     mixed_content := mixed_content security;
     forms := forms security;
     score := score security;
     max_score := max_score security;
     deductions := deductions security;
     rating := rating security |}.

Definition check_ssl_tls (parsed_url : ParseResult)
    (handshake : string → tls_outcome) (security : t) : t :=
  let https := bool_decide (scheme parsed_url = "https") in
  let issues :=
    if negb https then ["HTTPS not enabled"]
    else
      match handshake (netloc parsed_url) with
      | Certificate days_to_expiry =>
          if days_to_expiry <? 30 then
            ["Certificate expires soon (" +:+ pretty days_to_expiry
             +:+ " days)"]
          else []
      | TlsError e => ["Error analyzing SSL: " +:+ e]
      end in
  {| headers := headers security;
     missing_security_headers := missing_security_headers security;
     present_security_headers := present_security_headers security;
     https_enabled := Some https;
     ssl_issues := Some issues;
     potential_xss_vectors := potential_xss_vectors security;
     mixed_content := mixed_content security;
     forms := forms security;
     score := score security;
     max_score := max_score security;
     deductions := deductions security;
     rating := rating security |}.

Definition risky_attrs : list string :=
  ["onclick"; "onload"; "onmouseover"; "onerror"; "onkeyup"; "onsubmit"].

(** [re.compile(r'^javascript:', re.I)] *)
Definition javascript_href : regex := Bol · LitI "javascript:".

Definition check_content_security (soup : node) (security : t) : t :=
  let from_attrs :=
    attr ← risky_attrs;
    element ← take 5 (find_all soup (has_attr attr));
    [ ({[ "element" := name element; "attribute" := attr;
          "value" := slice (default "" (get element attr)) 0 100 ]}
        : gmap string string) ] in
  let js_links :=
    find_all soup (fun n => named "a" n && attr_search "href" javascript_href n) in
  let from_links :=
    link ← take 5 js_links;
    [ ({[ "element" := "a"; "attribute" := "href";
          "value" := slice (default "" (get link "href")) 0 100 ]}
        : gmap string string) ] in
  {| headers := headers security;
     missing_security_headers := missing_security_headers security;
     present_security_headers := present_security_headers security;
     https_enabled := https_enabled security;
     ssl_issues := ssl_issues security;
     potential_xss_vectors := Some (from_attrs ++ from_links);
     mixed_content := mixed_content security;
     forms := forms security;
     score := score security;
     max_score := max_score security;
     deductions := deductions security;
     rating := rating security |}.

Definition quote (c : ascii) : bool :=
  chr_eqb c "'" || chr_eqb c (ascii_of_nat 34).

(** [re.compile(r'^http://', re.I)] *)
Definition http_url : regex := Bol · LitI "http://".

(** The pattern of the [url(http://...)] references in style sheets,
    under [re.I]: [url\(], [\s*], an optional quote, the group
    [http://] followed by characters other than quotes and [)], an
    optional quote, [\s*], [\)]. *)
Definition style_url : regex :=
  LitI "url(" · Star isspace · Opt (In quote)
  · Group 1 (LitI "http://"
             · Plus (fun c => negb (quote c || chr_eqb c ")")))
  · Opt (In quote) · Star isspace · Chr ")".

Definition url_bearing : list (string * string) :=
  [ ("img", "src"); ("script", "src"); ("link", "href"); ("iframe", "src");
    ("object", "data"); ("source", "src"); ("audio", "src");
    ("video", "src") ].

Definition check_mixed_content (soup : node) (security : t) : t :=
  let result :=
    if negb (default false (https_enabled security)) then
      {| MixedContent.status := "N/A - not using HTTPS";
         MixedContent.items := None;
         MixedContent.count := None |}
    else
      let from_tags :=
        '(tag_name, attr_name) ← url_bearing;
        element ← take 3 (find_all soup (fun n =>
                    named tag_name n && attr_search attr_name http_url n));
        [ ({[ "tag" := tag_name; "attribute" := attr_name;
              "url" := slice (default "" (get element attr_name)) 0 100 ]}
            : gmap string string) ] in
      let from_styles :=
        style ← find_all soup (named "style");
        match string_ style with
        | Some text =>
            if bool_decide (text = "") then []
            else
              m ← take 3 (finditer style_url text);
              [ ({[ "tag" := "style"; "attribute" := "url()";
                    "url" := slice (default "" (group m 1)) 0 100 ]}
                  : gmap string string) ]
        | None => []
        end in
      let mixed_content := from_tags ++ from_styles in
      {| MixedContent.status :=
           if bool_decide (mixed_content ≠ []) then "Issues found"
           else "No issues";
         MixedContent.items := Some mixed_content;
         MixedContent.count := Some (length mixed_content) |} in
  {| headers := headers security;
     missing_security_headers := missing_security_headers security;
     present_security_headers := present_security_headers security;
     https_enabled := https_enabled security;
     ssl_issues := ssl_issues security;
     potential_xss_vectors := potential_xss_vectors security;
     mixed_content := Some result;
     forms := forms security;
     score := score security;
     max_score := max_score security;
     deductions := deductions security;
     rating := rating security |}.

(** [re.compile(r'csrf|token|_token|xsrf', re.I)] *)
Definition csrf_name : regex :=
  Alt (LitI "csrf") (Alt (LitI "token") (Alt (LitI "_token") (LitI "xsrf"))).

(** The body of the loop of [check_form_security]. *)
Definition check_form (https : bool) (form_security : Forms.t) (form : node)
    : Forms.t :=
  let action := default "" (get form "action") in
  let '(secure1, issues1, with_https) :=
    if bool_decide (action ≠ "") && startswith action "http:" then
      (false, ["Form submits to HTTP URL"], Forms.with_https form_security)
    else if bool_decide (action = "") && negb https then
      (false, ["Form on non-HTTPS page without specific action"],
       Forms.with_https form_security)
    else (true, [], (Forms.with_https form_security + 1)%nat) in
  let csrf_fields :=
    find_all form (fun n =>
      named "input" n && attr_is "type" "hidden" n
      && attr_search "name" csrf_name n) in
  let '(secure2, issues2, with_csrf) :=
    if bool_decide (csrf_fields ≠ []) then
      (secure1, issues1, (Forms.with_csrf_protection form_security + 1)%nat)
    else
      (false, issues1 ++ ["No CSRF protection detected"],
       Forms.with_csrf_protection form_security) in
  let autocomplete_off := bool_decide (get form "autocomplete" = Some "off") in
  let password_fields :=
    find_all form (fun n => named "input" n && attr_is "type" "password" n) in
  let password_with_autocomplete_off :=
    List.filter
      (fun field => bool_decide (get field "autocomplete" = Some "off"))
      password_fields in
  let '(is_secure, issues, with_off) :=
    if autocomplete_off
       || (bool_decide (password_fields ≠ [])
           && bool_decide (length password_with_autocomplete_off
                           = length password_fields))
    then
      (secure2, issues2, (Forms.with_autocomplete_off form_security + 1)%nat)
    else if bool_decide (password_fields ≠ []) then
      (false, issues2 ++ ["Password fields without autocomplete=off"],
       Forms.with_autocomplete_off form_security)
    else (secure2, issues2, Forms.with_autocomplete_off form_security) in
  {| Forms.total := Forms.total form_security;
     Forms.with_csrf_protection := with_csrf;
     Forms.with_https := with_https;
     Forms.with_autocomplete_off := with_off;
     Forms.insecure_forms :=
       if is_secure then Forms.insecure_forms form_security
       else
         Forms.insecure_forms form_security
         ++ [ {| action := action;
                 method := default "GET" (get form "method");
                 issues := issues |} ] |}.

Definition check_form_security (soup : node) (security : t) : t :=
  let forms_ := find_all soup (named "form") in
  let form_security :=
    foldl (check_form (default false (https_enabled security)))
      {| Forms.total := length forms_;
         Forms.with_csrf_protection := 0;
         Forms.with_https := 0;
         Forms.with_autocomplete_off := 0;
         Forms.insecure_forms := [] |}
      forms_ in
  {| headers := headers security;
     missing_security_headers := missing_security_headers security;
     present_security_headers := present_security_headers security;
     https_enabled := https_enabled security;
     ssl_issues := ssl_issues security;
     potential_xss_vectors := potential_xss_vectors security;
     mixed_content := mixed_content security;
     forms := Some form_security;
     score := score security;
     max_score := max_score security;
     deductions := deductions security;
     rating := rating security |}.

(** One deduction step of [calculate_security_score]: when [n > 0], the
    score loses [min(n * weight, cap)] and the list gains a line. *)
Definition deduct (label : string) (n weight cap : Z)
    (acc : Z * list string) : Z * list string :=
  if 0 <? n then
    let deduction := Z.min (n * weight) cap in
    (acc.1 - deduction, acc.2 ++ [label +:+ ": -" +:+ pretty deduction])
  else acc.

Definition calculate_security_score (security : t) : t :=
  let acc := (100, []) in
  let missing_headers :=
    Z.of_nat (default 0%nat (missing_security_headers security)) in
  let acc := deduct "Missing security headers" missing_headers 10 40 acc in
  let acc :=
    if negb (default false (https_enabled security))
    then (acc.1 - 50, acc.2 ++ ["No HTTPS: -50"]) else acc in
  let ssl_issues_ := default [] (ssl_issues security) in
  let acc := deduct "SSL issues" (Z.of_nat (length ssl_issues_)) 10 30 acc in
  let xss_vectors :=
    Z.of_nat (length (default [] (potential_xss_vectors security))) in
  let acc := deduct "Potential XSS vectors" xss_vectors 5 25 acc in
  let mixed_content_count :=
    Z.of_nat (default 0%nat (mixed_content security ≫= MixedContent.count)) in
  let acc := deduct "Mixed content" mixed_content_count 3 15 acc in
  let insecure_forms :=
    Z.of_nat (length (default [] (Forms.insecure_forms <$> forms security))) in
  let acc := deduct "Insecure forms" insecure_forms 10 30 acc in
  let score_ := acc.1 in
  {| headers := headers security;
     missing_security_headers := missing_security_headers security;
     present_security_headers := present_security_headers security;
     https_enabled := https_enabled security;
     ssl_issues := ssl_issues security;
     potential_xss_vectors := potential_xss_vectors security;
     mixed_content := mixed_content security;
     forms := forms security;
     score := Some (Z.max 0 score_);
     max_score := Some 100;
     deductions := Some acc.2;
     rating :=
       Some (if 90 <=? score_ then "Excellent"
             else if 75 <=? score_ then "Good"
             else if 50 <=? score_ then "Fair"
             else if 25 <=? score_ then "Poor"
             else "Very Poor") |}.

(** Specification side: the counts [calculate_security_score] reads, with
    the defaults of its [.get] calls, and the sum of the capped
    deductions. *)
Definition missing_of (security : t) : Z :=
  Z.of_nat (default 0%nat (missing_security_headers security)).
Definition ssl_issues_of (security : t) : Z :=
  Z.of_nat (length (default [] (ssl_issues security))).
Definition xss_vectors_of (security : t) : Z :=
  Z.of_nat (length (default [] (potential_xss_vectors security))).
Definition mixed_of (security : t) : Z :=
  Z.of_nat (default 0%nat (mixed_content security ≫= MixedContent.count)).
Definition insecure_forms_of (security : t) : Z :=
  Z.of_nat (length (default [] (Forms.insecure_forms <$> forms security))).

Definition total_deductions (security : t) : Z :=
  Z.min (missing_of security * 10) 40
  + (if default false (https_enabled security) then 0 else 50)
  + Z.min (ssl_issues_of security * 10) 30
  + Z.min (xss_vectors_of security * 5) 25
  + Z.min (mixed_of security * 3) 15
  + Z.min (insecure_forms_of security * 10) 30.

Definition analyze (soup : node) (response_headers : gmap string string)
    (parsed_url : ParseResult) (handshake : string → tls_outcome) : t :=
  let security := empty in
  let security := check_security_headers response_headers security in
  let security := check_ssl_tls parsed_url handshake security in
  let security := check_content_security soup security in
  let security := check_mixed_content soup security in
  let security := check_form_security soup security in
  calculate_security_score security.

(** Specification side: the seven header names of the check list, and
    the minimal document
    [<html lang="en"><head><title>T</title></head><body><img src="a.jpg"></body></html>]
    of the end-to-end scenario. *)
Definition security_header_names : list string :=
  [ "Strict-Transport-Security"; "Content-Security-Policy";
    "X-Content-Type-Options"; "X-Frame-Options"; "X-XSS-Protection";
    "Referrer-Policy"; "Permissions-Policy" ].

(** Specification side: a header the response carries with a value other
    than the text "Missing". *)
Definition header_sent (response_headers : gmap string string)
    (name : string) : Prop :=
  ∃ value, response_headers !! str_lower name = Some value
           ∧ value ≠ "Missing".

Definition minimal_document : node :=
  Tag "[document]" ∅
    [ Tag "html" {[ "lang" := "en" ]}
        [ Tag "head" ∅ [ Tag "title" ∅ [ NavigableString Plain "T" ] ];
          Tag "body" ∅ [ Tag "img" {[ "src" := "a.jpg" ]} [] ] ] ].

(** The end-to-end scenario: the minimal document over plain HTTP, no
    header in the response (the handshake is never attempted). *)
Definition scenario : t :=
  analyze minimal_document ∅
    {| scheme := "http"; netloc := "example.com" |}
    (fun _ => TlsError "unreachable").

End Security.

(** ** core/analyzer.py *)

Module Core.

(** The leaves of [self.results] that [_calculate_scores] reads through
    [safe_get]; [None] is a path that does not lead to a value, for which
    [safe_get] returns its default.  The load time and the size are the
    floats [round(..., 2)] and [round(..., 3)] stored by the loading
    checks, the percentage is the float stored by [check_wcag_compliance]
    and the security score the integer stored by
    [calculate_security_score]. *)
Module Wcag.
Record t : Type := {
  (** [level_aa.percentage] *)
  level_aa_percentage : option float
}.
End Wcag.

Record results : Type := {
  (** [performance.loading.total_load_time] *)
  total_load_time : option float;
  (** [performance.loading.response_size_mb] *)
  response_size_mb : option float;
  (** [accessibility.wcag_compliance] *)
  wcag_compliance : option Wcag.t;
  (** [security.score] *)
  security_score : option Z
}.

Record scores : Type := {
  performance : Z;
  accessibility : float;
  security : Z;
  overall : float
}.

(** Specification side: the two deductions of the performance score. *)
Definition load_time_deduction (load_time : float) : Z :=
  if PrimFloat.ltb 3 load_time then 30
  else if PrimFloat.ltb 2 load_time then 15
  else if PrimFloat.ltb 1 load_time then 5
  else 0.

Definition size_deduction (size_mb : float) : Z :=
  if PrimFloat.ltb 2 size_mb then 20
  else if PrimFloat.ltb 1 size_mb then 10
  else 0.

(** [_calculate_scores]; it raises when an integer score is too large to
    take part in the float arithmetic of the weighted sum. *)
Definition _calculate_scores (r : results) : result scores :=
  let perf_score := 100 in
  let load_time := default 0%float (total_load_time r) in
  let perf_score :=
    if PrimFloat.ltb 3 load_time then perf_score - 30
    else if PrimFloat.ltb 2 load_time then perf_score - 15
    else if PrimFloat.ltb 1 load_time then perf_score - 5
    else perf_score in
  let size_mb := default 0%float (response_size_mb r) in
  let perf_score :=
    if PrimFloat.ltb 2 size_mb then perf_score - 20
    else if PrimFloat.ltb 1 size_mb then perf_score - 10
    else perf_score in
  let performance_ := Z.max 0 perf_score in
  let acc_score :=
    match wcag_compliance r with
    | Some wcag => default 0%float (Wcag.level_aa_percentage wcag)
    | None => 0%float
    end in
  let security_score_ := default 0 (security_score r) in
  p ← float_of_int performance_;
  s ← float_of_int security_score_;
  mret {| performance := performance_;
          accessibility := acc_score;
          security := security_score_;
          overall := round1 (p * 0.4 + acc_score * 0.4 + s * 0.2)%float |}.

End Core.

(** ** utils/helpers.py: [safe_get] *)

Module Lookup.

(** The values a result tree is made of; only dictionaries are walked
    into. *)
Inductive value : Type :=
| VNone
| VBool (b : bool)
| VInt (n : Z)
| VFloat (x : float)
| VStr (s : string)
| VList (l : list value)
| VDict (d : gmap string value).

(** [s.split(sep)] for a separator of one character. *)
Fixpoint split_on (sep : ascii) (s : string) : list string :=
  match s with
  | EmptyString => [EmptyString]
  | String c s' =>
      if chr_eqb c sep then EmptyString :: split_on sep s'
      else
        match split_on sep s' with
        | piece :: pieces => String c piece :: pieces
        | [] => [String c EmptyString]
        end
  end.

(** The loop of [safe_get] over the keys. *)
Fixpoint walk (keys : list string) (current dflt : value) : value :=
  match keys with
  | [] => current
  | key :: keys' =>
      match current with
      | VDict d =>
          match d !! key with
          | Some v => walk keys' v dflt
          | None => dflt
          end
      | _ => dflt
      end
  end.

Definition safe_get (dictionary : value) (path : string) (dflt : value)
    : value :=
  walk (split_on "." path) dictionary dflt.

(** Specification side: a key with a dot in it. *)
Definition dotted (key : string) : Prop :=
  ∃ a b : string, key = a +:+ "." +:+ b.

End Lookup.

(** ** modules/accessibility.py: the checks before the WCAG scoring *)

Module Checks.

(** [round(x, ndigits)] for [ndigits >= 0], as [round1] is for one
    digit. *)
Definition round_digits (ndigits : N) (x : float) : float :=
  let scale := 10 ^ Z.of_N ndigits in
  match Prim2SF x with
  | S754_finite s m e =>
      let sm := if s then Zneg m else Zpos m in
      let n := if 0 <=? e then scale * sm * 2 ^ e
               else round_half_even (scale * sm) (Z.to_pos (2 ^ (- e))) in
      if n =? 0 then SF2Prim (S754_zero s)
      else SF2Prim (nearest_float n (Z.to_pos scale))
  | _ => x
  end.

(** [tag.interesting_string_types]: the classes of the strings that count
    as the text of a tag. *)
Definition interesting_string_types (nm : string) : list string_class :=
  if bool_decide (nm = "rt") then [RubyTextString]
  else if bool_decide (nm = "rp") then [RubyParenthesisString]
  else if bool_decide (nm = "style") then [Stylesheet]
  else if bool_decide (nm = "script") then [Script]
  else if bool_decide (nm = "template") then [TemplateString]
  else [Plain; CData].

(** The strings of the classes [types] at and below a node, in document
    order, joined. *)
Fixpoint all_strings (types : list string_class) (n : node) : string :=
  match n with
  | NavigableString cls s => if bool_decide (cls ∈ types) then s else ""
  | Tag _ _ contents =>
      foldr (fun c rest => all_strings types c +:+ rest) "" contents
  end.

(** [tag.get_text()]: the text of a [script] or a comment inside a
    heading, for instance, is no part of the text of the heading. *)
Definition get_text (n : node) : string :=
  match n with
  | Tag nm _ _ => all_strings (interesting_string_types nm) n
  | NavigableString _ _ => all_strings [Plain; CData] n
  end.

(** [find_all([name, ...])] *)
Definition named_any (names : list string) (n : node) : bool :=
  existsb (fun nm => named nm n) names.

(** A value read as a condition. *)
Definition truthy (v : option string) : bool :=
  match v with
  | Some v => bool_decide (v ≠ "")
  | None => false
  end.

(** *** [check_semantic_structure] *)

Module Semantic.
Record t : Type := {
  lang_attribute : string;
  dir_attribute : string;
  (** per key [h1] .. [h6]: [count] and [texts] *)
  headings : list (string * (nat * list string));
  heading_hierarchy_issues : bool;
  empty_headings : nat;
  html5_landmarks : list (string * nat);
  aria_landmarks : list (string * nat)
}.
End Semantic.

(** [f'h{i}'] *)
Definition heading_tag (i : nat) : string := "h" +:+ pretty i.

(** The list [all_headings]: the headings of level 1, then those of level
    2, and so on. *)
Definition all_headings (soup : node) : list (Z * string) :=
  i ← seq 1 6;
  h ← find_all soup (named (heading_tag i));
  [(Z.of_nat i, strip (get_text h))].

Definition check_semantic_structure (soup : node) : Semantic.t :=
  let html_tag := find soup (named "html") in
  let count_of (p : node → bool) : nat := length (find_all soup p) in
  {| Semantic.lang_attribute :=
       match html_tag with
       | Some tag => default "Missing" (get tag "lang")
       | None => "Missing"
       end;
     Semantic.dir_attribute :=
       match html_tag with
       | Some tag => default "Not specified" (get tag "dir")
       | None => "Not specified"
       end;
     Semantic.headings :=
       (fun i =>
          let headings := find_all soup (named (heading_tag i)) in
          (heading_tag i,
           (length headings,
            (fun h => slice (strip (get_text h)) 0 100) <$> take 5 headings)))
       <$> seq 1 6;
     Semantic.heading_hierarchy_issues :=
       check_heading_hierarchy (all_headings soup);
     Semantic.empty_headings :=
       length (List.filter (fun lh => bool_decide (strip lh.2 = ""))
                 (all_headings soup));
     Semantic.html5_landmarks :=
       (fun nm => (nm, count_of (named nm)))
       <$> ["header"; "nav"; "main"; "aside"; "footer"; "section"; "article"];
     Semantic.aria_landmarks :=
       (fun role => (role, count_of (attr_is "role" role)))
       <$> ["banner"; "navigation"; "main"; "contentinfo"; "complementary";
            "search"] |}.

(** *** [check_keyboard_navigation]

    without the key [skip_links], whose patterns are partly written in
    characters above 255. *)

Module Keyboard.
Record t : Type := {
  total_interactive_elements : nat;
  tabindex_issues : list string;
  focus_indicators : nat
}.
End Keyboard.

Definition interactive : list string :=
  ["a"; "button"; "input"; "select"; "textarea"].

(** The body of the loop over the interactive elements: what one element
    adds to [tabindex_issues]. *)
Definition tabindex_issue (elem : node) : list string :=
  match get elem "tabindex" with
  | Some tabindex =>
      if bool_decide (tabindex = "") then []
      else
        match int_of_str tabindex 10 with
        | Ok tabindex_val =>
            if 0 <? tabindex_val then
              [name elem +:+ " with tabindex=" +:+ pretty tabindex_val]
            else []
        | Raise _ => [name elem +:+ " with invalid tabindex=" +:+ tabindex]
        end
  | None => []
  end.

(** The text of all [style] elements, one after the other. *)
Definition css_content (soup : node) : string :=
  foldl (fun css style => css +:+ get_text style) ""
    (find_all soup (named "style")).

(** [_check_focus_indicators] *)
Definition _check_focus_indicators (soup : node) : nat :=
  length (finditer (LitI ":focus") (css_content soup)).

Definition check_keyboard_navigation (soup : node) : Keyboard.t :=
  let interactive_elements := find_all soup (named_any interactive) in
  {| Keyboard.total_interactive_elements := length interactive_elements;
     Keyboard.tabindex_issues := interactive_elements ≫= tabindex_issue;
     Keyboard.focus_indicators := _check_focus_indicators soup |}.

(** *** [check_forms] *)

Module FormFields.
Record t : Type := {
  total_forms : nat;
  forms_with_labels : nat;
  total_inputs : nat;
  inputs_with_labels : nat;
  inputs_with_placeholders : nat;
  required_fields : nat;
  fieldsets : nat;
  legends : nat
}.
End FormFields.

(** The two tests that each add one to [inputs_with_labels]. *)
Definition has_label_for (soup input_elem : node) : bool :=
  match get input_elem "id" with
  | Some input_id =>
      bool_decide (input_id ≠ "")
      && bool_decide (is_Some (find soup (fun n =>
           named "label" n && attr_is "for" input_id n)))
  | None => false
  end.

Definition has_aria_label (input_elem : node) : bool :=
  truthy (get input_elem "aria-label")
  || truthy (get input_elem "aria-labelledby").

(** The body of the loop of [check_forms]. *)
Definition check_input (soup : node) (form_analysis : FormFields.t)
    (input_elem : node) : FormFields.t :=
  let incr_if (b : bool) (n : nat) : nat := if b then (n + 1)%nat else n in
  {| FormFields.total_forms := FormFields.total_forms form_analysis;
     FormFields.forms_with_labels :=
       FormFields.forms_with_labels form_analysis;
     FormFields.total_inputs := FormFields.total_inputs form_analysis;
     FormFields.inputs_with_labels :=
       incr_if (has_aria_label input_elem)
         (incr_if (has_label_for soup input_elem)
            (FormFields.inputs_with_labels form_analysis));
     FormFields.inputs_with_placeholders :=
       incr_if (truthy (get input_elem "placeholder"))
         (FormFields.inputs_with_placeholders form_analysis);
     FormFields.required_fields :=
       incr_if (truthy (get input_elem "required")
                || bool_decide (get input_elem "aria-required" = Some "true"))
         (FormFields.required_fields form_analysis);
     FormFields.fieldsets := FormFields.fieldsets form_analysis;
     FormFields.legends := FormFields.legends form_analysis |}.

Definition form_fields : list string := ["input"; "select"; "textarea"].

Definition check_forms (soup : node) : FormFields.t :=
  let inputs := find_all soup (named_any form_fields) in
  foldl (check_input soup)
    {| FormFields.total_forms := length (find_all soup (named "form"));
       FormFields.forms_with_labels := 0;
       FormFields.total_inputs := length inputs;
       FormFields.inputs_with_labels := 0;
       FormFields.inputs_with_placeholders := 0;
       FormFields.required_fields := 0;
       FormFields.fieldsets := length (find_all soup (named "fieldset"));
       FormFields.legends := length (find_all soup (named "legend")) |}
    inputs.

(** *** [check_color_contrast] *)

Module Contrast.
Record pair : Type := {
  background : string;
  text : string;
  ratio : float
}.
Record t : Type := {
  issues : list pair;
  compliant_pairs : list pair;
  background_colors : list string;
  text_colors : list string;
  has_issues : bool
}.
End Contrast.

Section contrast.
Variable libm_pow : float → float → float.

(** The double loop over the background and text colors: for every pair
    whose ratio can be computed, whether the ratio is below 4.5, and the
    entry that is recorded. *)
Definition rated_pairs (colors : Helpers.colors)
    : list (bool * Contrast.pair) :=
  bg_color ← Helpers.background colors;
  text_color ← Helpers.text colors;
  match calculate_contrast_ratio libm_pow bg_color text_color with
  | Ok contrast_ratio =>
      [ (PrimFloat.ltb contrast_ratio 4.5,
         {| Contrast.background := bg_color;
            Contrast.text := text_color;
            Contrast.ratio := round_digits 2 contrast_ratio |}) ]
  | Raise _ => []
  end.

Definition check_color_contrast (soup : node) : Contrast.t :=
  let colors := extract_css_colors (css_content soup) in
  let rated := rated_pairs colors in
  let contrast_issues := snd <$> List.filter fst rated in
  let compliant_pairs :=
    snd <$> List.filter (fun entry => negb entry.1) rated in
  {| Contrast.issues := take 10 contrast_issues;
     Contrast.compliant_pairs := take 10 compliant_pairs;
     Contrast.background_colors := take 20 (Helpers.background colors);
     Contrast.text_colors := take 20 (Helpers.text colors);
     Contrast.has_issues := bool_decide (0 < length contrast_issues)%nat |}.

(** [analyze], as far as [check_wcag_compliance] depends on it:
    [check_multimedia] and [check_text_content] write keys that the scoring
    does not read. *)
Definition analyze (soup : node) : Accessibility.wcag_compliance :=
  let sem := check_semantic_structure soup in
  let kbd := check_keyboard_navigation soup in
  let sr := Accessibility.check_screen_reader_support soup in
  let form_analysis := check_forms soup in
  let contrast := check_color_contrast soup in
  Accessibility.check_wcag_compliance
    {| Accessibility.lang_attribute := Semantic.lang_attribute sem;
       Accessibility.heading_hierarchy_issues :=
         Semantic.heading_hierarchy_issues sem;
       Accessibility.screen_reader := sr;
       Accessibility.total_inputs := FormFields.total_inputs form_analysis;
       Accessibility.inputs_with_labels :=
         FormFields.inputs_with_labels form_analysis;
       Accessibility.has_issues := Some (Contrast.has_issues contrast);
       Accessibility.tabindex_issues := Keyboard.tabindex_issues kbd |}.
End contrast.

(** Specification side: the number of headings of one level, and the
    number of conditional points among the four of Level A and the two more
    of Level AA. *)
Definition heading_count (soup : node) (i : nat) : nat :=
  length (find_all soup (named (heading_tag i))).

Definition level_a_points (accessibility : Accessibility.findings) : Z :=
  Z.b2z (bool_decide (Accessibility.lang_attribute accessibility ≠ "Missing"))
  + Z.b2z (bool_decide
             (Accessibility.Images.without_alt
                (Accessibility.images
                   (Accessibility.screen_reader accessibility)) = 0%nat))
  + Z.b2z (negb (Accessibility.heading_hierarchy_issues accessibility))
  + Z.b2z (bool_decide
             (0 < Accessibility.total_inputs accessibility
              ∧ Accessibility.inputs_with_labels accessibility
                = Accessibility.total_inputs accessibility)%nat).

Definition level_aa_points (accessibility : Accessibility.findings) : Z :=
  Z.b2z (bool_decide (Accessibility.has_issues accessibility = Some false))
  + Z.b2z (bool_decide (Accessibility.tabindex_issues accessibility = [])).

(** Specification side: the two lower-case hexadecimal digits of a
    channel value below 256. *)
Definition hex_digit (n : Z) : ascii :=
  default "0"%char (String.get (Z.to_nat n) "0123456789abcdef").

Definition hex_pair (n : Z) : string :=
  String (hex_digit (n / 16)) (String (hex_digit (n mod 16)) "").

End Checks.

(** ** The scores of one run

    Specification side: the rating band of a score, and the leaves of
    [self.results] as [_calculate_scores] finds them after the analyzers
    have run, the accessibility and security namespaces being the
    dictionaries the two analyzers have written to. *)

Module Run.

Definition rating_band (score : Z) : string :=
  if 90 <=? score then "Excellent"
  else if 75 <=? score then "Good"
  else if 50 <=? score then "Fair"
  else if 25 <=? score then "Poor"
  else "Very Poor".

Definition gather (load_time size_mb : option float)
    (wcag : Accessibility.wcag_compliance) (security : Security.t)
    : Core.results :=
  {| Core.total_load_time := load_time;
     Core.response_size_mb := size_mb;
     Core.wcag_compliance :=
       Some {| Core.Wcag.level_aa_percentage :=
                 Some (Accessibility.Level.percentage
                         (Accessibility.level_aa wcag)) |};
     Core.security_score := Security.score security |}.

(** The percentages the Level AA score can take, and the overall score
    for a performance score, a Level AA score and a security score. *)
Definition aa_percentages : list float :=
  [53.3; 60; 66.7; 73.3; 80; 86.7; 93.3]%float.

Definition overall_of (perf aa sec : Z) : option float :=
  match float_of_int perf, float_of_int sec with
  | Ok p, Ok s =>
      Some (round1 (p * 0.4 + Accessibility.percentage_of aa 15 * 0.4
                    + s * 0.2)%float)
  | _, _ => None
  end.

Definition overall_in_range (perf aa sec : Z) : bool :=
  match overall_of perf aa sec with
  | Some overall => PrimFloat.leb 41.3 overall && PrimFloat.leb overall 97.3
  | None => false
  end.

End Run.

(** * Properties *)

(** ** Heading hierarchy *)

Section heading_hierarchy.

Implicit Types (headings : list (Z * string)) (levels : list Z).

Lemma skip_loop_spec levels :
  existsb
    (fun i => bool_decide (levels !!! (i + 1)%nat - levels !!! i > 1))
    (seq 0 (length levels - 1)) = true
  ↔ skips_level levels.
Proof.
  rewrite existsb_exists. split.
  - intros (i & Hi & Hgt).
    apply in_seq in Hi. apply bool_decide_eq_true in Hgt.
    assert (Hlt : (S i < length levels)%nat) by lia.
    destruct (lookup_lt_is_Some_2 levels i) as [a Ha]; [lia|].
    destruct (lookup_lt_is_Some_2 levels (S i)) as [b Hb]; [lia|].
    exists i, a, b. split_and!; [done..|].
    rewrite (list_lookup_total_correct _ _ _ Ha) in Hgt.
    replace (i + 1)%nat with (S i) in Hgt by lia.
    by rewrite (list_lookup_total_correct _ _ _ Hb) in Hgt.
  - intros (i & a & b & Ha & Hb & Hgt).
    apply lookup_lt_Some in Hb as Hlt.
    exists i. split; [apply in_seq; lia|].
    apply bool_decide_eq_true.
    replace (i + 1)%nat with (S i) by lia.
    by rewrite (list_lookup_total_correct _ _ _ Ha),
      (list_lookup_total_correct _ _ _ Hb).
Qed.

(** C5. [check_heading_hierarchy] reports issues exactly for a non-empty
    sequence of headings that has no level-1 heading or in which some
    consecutive pair increases the level by more than one.  In particular
    the empty sequence has no issues, and a sequence with a level-1 heading
    whose levels never rise by more than one step (so any run of decreasing
    or repeated levels) is not flagged. *)
Theorem check_heading_hierarchy_spec headings :
  (check_heading_hierarchy headings = true
   ↔ headings ≠ [] ∧ (1 ∉ headings.*1 ∨ skips_level headings.*1))
  ∧ check_heading_hierarchy [] = false
  ∧ (1 ∈ headings.*1 →
     (∀ (i : nat) (a b : Z),
        headings.*1 !! i = Some a → headings.*1 !! S i = Some b → b ≤ a + 1) →
     check_heading_hierarchy headings = false).
Proof.
  assert (Hiff : check_heading_hierarchy headings = true
     ↔ headings ≠ [] ∧ (1 ∉ headings.*1 ∨ skips_level headings.*1)).
  { destruct headings as [|h hs]; [by split; [|intros [? _]]|].
    unfold check_heading_hierarchy.
    set (levels := (h :: hs).*1).
    case_bool_decide as H1; cbn [negb].
    - rewrite skip_loop_spec. split; [by auto|].
      by intros [_ [?|?]].
    - split; [by auto|done]. }
  split_and!; [done|done|].
  intros H1 Hstep. apply not_true_is_false. rewrite Hiff.
  intros [_ [?|(i & a & b & Ha & Hb & Hgt)]]; [done|].
  specialize (Hstep i a b Ha Hb). lia.
Qed.

Example heading_hierarchy_cases :
  check_heading_hierarchy [(2, "x")] = true
  ∧ check_heading_hierarchy [(1, "a"); (2, "b"); (3, "c")] = false
  ∧ check_heading_hierarchy [(1, "a"); (3, "b")] = true
  ∧ check_heading_hierarchy [(1, "a"); (4, "b"); (2, "c")] = true
  ∧ check_heading_hierarchy [(3, "a"); (2, "b"); (1, "c"); (1, "d")] = false.
Proof. by vm_compute. Qed.

Lemma check_heading_hierarchy_spec_witness :
  check_heading_hierarchy [(1, "a"); (2, "b"); (2, "c"); (1, "d")] = false.
Proof.
  apply (check_heading_hierarchy_spec [(1, "a"); (2, "b"); (2, "c"); (1, "d")]).
  - set_solver.
  - intros [|[|[|[|i]]]] a b Ha Hb; simplify_eq/=; lia.
Defined.

End heading_hierarchy.

(** ** Image and table tallies *)

Section tallies.

Import Accessibility.

Lemma filter_split {A} (p q : A → bool) (l : list A) :
  (∀ x, q x = negb (p x)) →
  (length (List.filter p l) + length (List.filter q l))%nat = length l.
Proof.
  intros Hq. induction l as [|x l IH]; [done|].
  cbn [List.filter]. rewrite (Hq x).
  destruct (p x); cbn [negb length]; lia.
Qed.

Lemma filter_sub {A} (p q : A → bool) (l : list A) :
  (∀ x, p x = true → q x = true) →
  (length (List.filter p l) ≤ length (List.filter q l))%nat.
Proof.
  intros Hpq. induction l as [|x l IH]; [done|].
  cbn [List.filter]. destruct (p x) eqn:Hp.
  - rewrite (Hpq x Hp). cbn [length]. lia.
  - destruct (q x); cbn [length]; lia.
Qed.

(** C9. For every document the image tally is a partition: the images
    with an [alt] attribute and those without add up to all images, and
    the images with an empty [alt] are among those with an [alt]. *)
Theorem images_partition (soup : node) :
  let images := images (check_screen_reader_support soup) in
  (Images.with_alt images + Images.without_alt images
   = Images.total images)%nat
  ∧ (Images.with_empty_alt images ≤ Images.with_alt images)%nat.
Proof.
  cbn. split.
  - apply filter_split. intros img.
    destruct (get img "alt"); by repeat case_bool_decide.
  - apply filter_sub. intros img.
    rewrite !bool_decide_eq_true. by intros ->.
Qed.

(** The loop of [_analyze_tables] keeps [total] and adds each table to
    exactly one of the two classes; a table with a header cell goes to the
    data tables. *)
Lemma analyze_table_loop (tables : list node) (init : Tables.t) :
  let final := foldl analyze_table init tables in
  Tables.total final = Tables.total init
  ∧ (Tables.data_tables final + Tables.layout_tables final
     = Tables.data_tables init + Tables.layout_tables init + length tables)%nat
  ∧ (Tables.with_headers init ≤ Tables.data_tables init →
     Tables.with_headers final ≤ Tables.data_tables final)%nat.
Proof.
  revert init. induction tables as [|table tables IH]; intros init.
  - cbn. split_and!; [done|lia|done].
  - cbn [foldl length].
    destruct (IH (analyze_table init table)) as (Htot & Hsum & Hle).
    split_and!.
    + by rewrite Htot.
    + rewrite Hsum. cbn.
      destruct (bool_decide (is_Some (find table (named "th"))));
        destruct (bool_decide (get table "role" = Some "table"));
        cbn; lia.
    + intros Hinit. apply Hle. cbn.
      destruct (bool_decide (is_Some (find table (named "th"))));
        destruct (bool_decide (get table "role" = Some "table"));
        cbn; lia.
Qed.

(** C10. For every document each table is counted as exactly one of data
    table and layout table, and every table counted in [with_headers] is
    counted as a data table. *)
Theorem tables_partition (soup : node) :
  let table_analysis := _analyze_tables soup in
  (Tables.data_tables table_analysis + Tables.layout_tables table_analysis
   = Tables.total table_analysis)%nat
  ∧ (Tables.with_headers table_analysis
     ≤ Tables.data_tables table_analysis)%nat.
Proof.
  cbn zeta. unfold _analyze_tables.
  set (tables := find_all soup (named "table")).
  set (init := Tables.Build_t _ _ _ _ _ _).
  destruct (analyze_table_loop tables init) as (Htot & Hsum & Hle).
  split.
  - rewrite Hsum, Htot. cbn. lia.
  - apply Hle. cbn. lia.
Qed.

End tallies.

(** ** WCAG scoring *)

Section wcag.

Import Accessibility.

Lemma passed_level_a (n : Z) :
  int_ge_float n (10 * 0.8)%float = bool_decide (8 ≤ n).
Proof.
  unfold int_ge_float.
  replace (Prim2SF (10 * 0.8)%float)
    with (S754_finite false 4503599627370496 (-49))
    by (vm_compute; reflexivity).
  change (0 <=? -49) with false. change (2 ^ (- -49)) with 562949953421312.
  cbv iota.
  destruct (Z.leb_spec 4503599627370496 (n * 562949953421312));
    case_bool_decide; (done || lia).
Qed.

Lemma passed_level_aa (n : Z) :
  int_ge_float n (15 * 0.8)%float = bool_decide (12 ≤ n).
Proof.
  unfold int_ge_float.
  replace (Prim2SF (15 * 0.8)%float)
    with (S754_finite false 6755399441055744 (-49))
    by (vm_compute; reflexivity).
  change (0 <=? -49) with false. change (2 ^ (- -49)) with 562949953421312.
  cbv iota.
  destruct (Z.leb_spec 6755399441055744 (n * 562949953421312));
    case_bool_decide; (done || lia).
Qed.

(** C3. The Level A score is one point for each of: a [lang] attribute
    other than "Missing", no image without [alt], no heading-hierarchy
    issue, and all inputs labelled when there is at least one input; plus
    the constant 6; out of 10, passed from 8 on.  The Level AA score is the
    Level A score carried forward, plus one point when the contrast check
    reports no issues, one when the list of tabindex issues is empty, and
    the constant 2; out of 15, passed from 12 on. *)
Theorem wcag_scores (accessibility : findings) :
  let wcag := check_wcag_compliance accessibility in
  Level.score (level_a wcag)
  = Z.b2z (bool_decide (lang_attribute accessibility ≠ "Missing"))
    + Z.b2z (bool_decide
               (Images.without_alt (images (screen_reader accessibility))
                = 0%nat))
    + Z.b2z (negb (heading_hierarchy_issues accessibility))
    + Z.b2z (bool_decide (0 < total_inputs accessibility
                          ∧ inputs_with_labels accessibility
                            = total_inputs accessibility)%nat)
    + 6
  ∧ Level.total (level_a wcag) = 10
  ∧ Level.passed (level_a wcag)
    = bool_decide (8 ≤ Level.score (level_a wcag))
  ∧ Level.score (level_aa wcag)
    = Level.score (level_a wcag)
      + Z.b2z (bool_decide (has_issues accessibility = Some false))
      + Z.b2z (bool_decide (tabindex_issues accessibility = []))
      + 2
  ∧ Level.total (level_aa wcag) = 15
  ∧ Level.passed (level_aa wcag)
    = bool_decide (12 ≤ Level.score (level_aa wcag)).
Proof.
  cbn zeta. unfold check_wcag_compliance. cbn [level_a level_aa
    Level.score Level.total Level.passed].
  rewrite passed_level_a, passed_level_aa.
  split_and!; try done.
  - repeat case_bool_decide; destruct (heading_hierarchy_issues _);
      cbn; lia.
  - destruct (has_issues accessibility) as [[]|],
      (tabindex_issues accessibility);
      repeat case_bool_decide; simplify_eq/=; lia.
Qed.

End wcag.

(** ** Security score *)

Section security_score.

Import Security.

Lemma deduct_score (label : string) (n weight cap : Z) (acc : Z * list string) :
  0 ≤ n → 0 ≤ cap →
  (deduct label n weight cap acc).1 = acc.1 - Z.min (n * weight) cap.
Proof.
  intros Hn Hcap. unfold deduct.
  destruct (Z.ltb_spec 0 n); [done|].
  assert (n = 0) as -> by lia. cbn. lia.
Qed.

Lemma score_closed_form (security : t) :
  score (calculate_security_score security)
  = Some (Z.max 0 (100 - total_deductions security)).
Proof.
  unfold calculate_security_score, total_deductions. cbn [score].
  unfold missing_of, ssl_issues_of, xss_vectors_of, mixed_of,
    insecure_forms_of.
  destruct (default false (https_enabled security));
    cbn [negb]; rewrite !deduct_score by lia; cbn; do 2 f_equal; lia.
Qed.

Lemma total_deductions_nonneg (security : t) :
  0 ≤ total_deductions security.
Proof.
  unfold total_deductions, missing_of, ssl_issues_of, xss_vectors_of,
    mixed_of, insecure_forms_of.
  destruct (default false (https_enabled security)); lia.
Qed.

(** C4. For every state of the security findings the stored score is 100
    minus the capped deductions (missing headers times 10 up to 40, a flat
    50 without HTTPS, SSL issues times 10 up to 30, XSS vectors times 5 up
    to 25, mixed-content items times 3 up to 15, insecure forms times 10
    up to 30), floored at 0: it lies between 0 and 100, and it is 0
    whenever the deductions reach 100 or more. *)
Theorem security_score_formula (security : t) :
  score (calculate_security_score security)
  = Some (Z.max 0 (100 - total_deductions security))
  ∧ 0 ≤ Z.max 0 (100 - total_deductions security) ≤ 100
  ∧ (100 ≤ total_deductions security ↔
     score (calculate_security_score security) = Some 0).
Proof.
  pose proof (score_closed_form security) as Hscore.
  pose proof (total_deductions_nonneg security).
  split; [done|]. split; [lia|].
  rewrite Hscore. split; [intros; f_equal; lia|intros [=]; lia].
Qed.

(** The state of the findings when the score is computed. *)
Lemma analyze_findings soup response_headers parsed_url handshake :
  ∃ security,
    analyze soup response_headers parsed_url handshake
    = calculate_security_score security
    ∧ missing_security_headers security
      = missing_security_headers
          (check_security_headers response_headers empty)
    ∧ https_enabled security
      = Some (bool_decide (scheme parsed_url = "https"))
    ∧ (scheme parsed_url ≠ "https" →
       ssl_issues security = Some ["HTTPS not enabled"]).
Proof.
  eexists. split; [reflexivity|]. split_and!; [done..|].
  intros Hscheme. cbn. by rewrite bool_decide_false.
Qed.

(** C1, as stated, fails: in the minimal scenario the score is 0, not
    50. *)
Lemma scenario_score_not_50 :
  score scenario = Some 0 ∧ score scenario ≠ Some 50
  ∧ deductions scenario
    = Some ["Missing security headers: -40"; "No HTTPS: -50";
            "SSL issues: -10"].
Proof. by vm_compute. Qed.

(** C1, amended. For a page fetched over plain HTTP whose response
    carries none of the seven security headers, the security score is 0
    whatever the document contains: the missing headers cost 40, the
    absence of HTTPS 50, and the issue "HTTPS not enabled" that the TLS
    check records in that case another 10. *)
Theorem http_without_headers_score soup response_headers parsed_url handshake :
  scheme parsed_url = "http" →
  (∀ name, name ∈ security_header_names →
           response_headers !! str_lower name = None) →
  score (analyze soup response_headers parsed_url handshake) = Some 0.
Proof.
  intros Hscheme Hnone.
  destruct (analyze_findings soup response_headers parsed_url handshake)
    as (security & -> & Hmissing & Hhttps & Hssl).
  assert (Hm : 4 ≤ missing_of security).
  { unfold missing_of. rewrite Hmissing. cbn [check_security_headers
      missing_security_headers default]. unfold headers_get.
    rewrite (Hnone "Strict-Transport-Security"),
      (Hnone "Content-Security-Policy"), (Hnone "X-Content-Type-Options"),
      (Hnone "X-Frame-Options"), (Hnone "X-XSS-Protection"),
      (Hnone "Referrer-Policy"), (Hnone "Permissions-Policy")
      by (apply (bool_decide_unpack _); by vm_compute).
    cbn [default fmap list_fmap snd].
    generalize (default "Missing"
                  (response_headers !! str_lower "Feature-Policy")).
    intros fallback. cbn [List.filter].
    repeat case_bool_decide; try done; cbn [length]; lia. }
  assert (Hh : default false (https_enabled security) = false).
  { rewrite Hhttps, Hscheme. done. }
  assert (Hs : ssl_issues_of security = 1).
  { unfold ssl_issues_of. rewrite Hssl; [done|]. by rewrite Hscheme. }
  rewrite score_closed_form. f_equal.
  pose proof (total_deductions_nonneg security).
  assert (100 ≤ total_deductions security); [|lia].
  unfold total_deductions in *. rewrite Hh, Hs.
  unfold xss_vectors_of, mixed_of, insecure_forms_of. lia.
Qed.

Lemma http_without_headers_score_witness :
  score (analyze minimal_document ∅
           {| scheme := "http"; netloc := "example.com" |}
           (fun _ => TlsError "unreachable")) = Some 0.
Proof.
  apply (http_without_headers_score minimal_document ∅
           {| scheme := "http"; netloc := "example.com" |}
           (fun _ => TlsError "unreachable")).
  - reflexivity.
  - intros name _. apply lookup_empty.
Defined.

End security_score.

(** ** Color parsing and contrast *)

Section colors.

Implicit Types (s t color digits : string) (c : ascii).

(** *** Lengths of stripped strings and slices *)

Lemma length_rev_app s t :
  String.length (String.rev_app s t)
  = (String.length s + String.length t)%nat.
Proof.
  revert t. induction s as [|c s IH]; intros t; [done|].
  cbn. rewrite IH. cbn. lia.
Qed.

Lemma length_lstrip_with (space : ascii → bool) s :
  (String.length (lstrip_with space s) ≤ String.length s)%nat.
Proof.
  induction s as [|c s IH]; [done|].
  cbn. destruct (space c); cbn; lia.
Qed.

Lemma length_strip_with (space : ascii → bool) s :
  (String.length (strip_with space s) ≤ String.length s)%nat.
Proof.
  unfold strip_with, String.rev. rewrite length_rev_app.
  etrans; [apply Nat.add_le_mono_r, length_lstrip_with|].
  rewrite length_rev_app. cbn.
  pose proof (length_lstrip_with space s). lia.
Qed.

Lemma length_substring s (i n : nat) :
  (String.length (String.substring i n s) ≤ n)%nat.
Proof.
  revert i n. induction s as [|c s IH]; intros [|i] [|n]; cbn; try lia.
  - specialize (IH 0%nat n). lia.
  - apply (IH i 0%nat).
  - apply (IH i (S n)).
Qed.

Lemma substring_all s : String.substring 0 (String.length s) s = s.
Proof. induction s as [|c s IH]; [done|]. cbn. by rewrite IH. Qed.

(** *** The range of [int] on short literals *)

Lemma digit_value_nonneg c : 0 ≤ digit_value c.
Proof.
  unfold digit_value, isdigit, islower, isupper.
  repeat match goal with
  | |- context [(?a <=? ?b)%nat] => destruct (Nat.leb_spec a b)
  end; cbn; lia.
Qed.

Lemma int_digits_bound (base : Z) s (prev : bool) (acc n : Z) :
  1 ≤ base → 0 ≤ acc →
  int_digits base s prev acc = Some n →
  0 ≤ n < (acc + 1) * base ^ Z.of_nat (String.length s).
Proof.
  intros Hbase. revert prev acc.
  induction s as [|c s IH]; intros prev acc Hacc Hn.
  - cbn in Hn. destruct prev; simplify_eq. cbn. lia.
  - cbn [int_digits] in Hn.
    replace (Z.of_nat (String.length (String c s)))
      with (Z.succ (Z.of_nat (String.length s))) by (cbn; lia).
    rewrite Z.pow_succ_r by lia.
    assert (0 < base ^ Z.of_nat (String.length s)) by (apply Z.pow_pos_nonneg; lia).
    destruct (chr_eqb c "_").
    + destruct prev; [done|]. apply IH in Hn; [|done]. nia.
    + pose proof (digit_value_nonneg c).
      destruct (Z.ltb_spec (digit_value c) base); [|done].
      apply IH in Hn; [|nia]. nia.
Qed.

Lemma length_int_sign s :
  ((int_sign s).1 = 1 ∨ (int_sign s).1 = -1)
  ∧ (String.length (int_sign s).2 ≤ String.length s)%nat.
Proof.
  destruct s as [|c s]; cbn; [by auto|].
  destruct (chr_eqb c "+"); [cbn; split; [auto|lia]|].
  destruct (chr_eqb c "-"); cbn; split; (auto || lia).
Qed.

Lemma length_int_prefix (base : Z) s :
  (String.length (int_prefix base s) ≤ String.length s)%nat.
Proof.
  destruct s as [|c [|x [|u s]]]; cbn; try lia.
  - destruct (_ && _); cbn; lia.
  - destruct (_ && _); [|cbn; lia].
    destruct (chr_eqb u "_"); cbn; lia.
Qed.

Lemma int_of_str_bound s (base n : Z) :
  1 ≤ base →
  int_of_str s base = Ok n →
  - base ^ Z.of_nat (String.length s) < n
    < base ^ Z.of_nat (String.length s).
Proof.
  intros Hbase. unfold int_of_str.
  pose proof (length_strip_with int_space s) as Hstrip.
  pose proof (length_int_sign (strip_with int_space s)) as [Hsign Hbody].
  destruct (int_sign (strip_with int_space s)) as [sign body].
  cbn [fst snd] in *.
  pose proof (length_int_prefix base body) as Hprefix.
  destruct (int_prefix base body) as [|c digits] eqn:Hdigits; [done|].
  destruct (chr_eqb c "_"); [done|].
  destruct (int_digits base (String c digits) false 0) as [m|] eqn:Hm;
    [|done].
  destruct (negb (binary_base base) && _); [done|].
  intros [= <-].
  apply int_digits_bound in Hm; [|done..].
  assert (base ^ Z.of_nat (String.length (String c digits))
          ≤ base ^ Z.of_nat (String.length s))
    by (apply Z.pow_le_mono_r; lia).
  destruct Hsign as [-> | ->]; lia.
Qed.

Lemma int_of_str_raise s (base : Z) (e : exn) :
  int_of_str s base = Raise e → e = ValueError.
Proof.
  unfold int_of_str.
  repeat match goal with
  | |- context [match ?x with _ => _ end] => destruct x
  end; by intros [=].
Qed.

Lemma float_of_int_small (n : Z) :
  -256 < n < 256 → ∃ x, float_of_int n = Ok x.
Proof.
  intros Hn.
  assert (Hall : forallb
            (fun k => negb (raises (float_of_int (Z.of_nat k - 255))))
            (seq 0 511) = true) by (vm_compute; reflexivity).
  rewrite forallb_forall in Hall.
  specialize (Hall (Z.to_nat (n + 255))).
  replace (Z.of_nat (Z.to_nat (n + 255)) - 255) with n in Hall by lia.
  destruct (float_of_int n) as [x|e]; [by exists x|].
  discriminate Hall. apply in_seq. lia.
Qed.

Lemma small_channel (n : Z) :
  -256 < n < 256 → ∃ x, int_truediv_float n 255 = Ok x.
Proof.
  intros [x Hx]%float_of_int_small. unfold int_truediv_float.
  rewrite Hx. by eexists.
Qed.

Lemma hex_channel digits (i : nat) :
  match channel (Some (slice digits i (i + 2))) 16 with
  | Ok _ => raises (int_of_str (slice digits i (i + 2)) 16) = false
  | Raise e =>
      e = ValueError ∧ raises (int_of_str (slice digits i (i + 2)) 16) = true
  end.
Proof.
  unfold channel.
  destruct (int_of_str (slice digits i (i + 2)) 16) as [n|e] eqn:Hn; cbn.
  - apply int_of_str_bound in Hn; [|lia].
    pose proof (length_substring digits i (i + 2 - i)) as Hlen.
    fold (slice digits i (i + 2)) in Hlen.
    assert (16 ^ Z.of_nat (String.length (slice digits i (i + 2))) ≤ 16 ^ 2)
      by (apply Z.pow_le_mono_r; lia).
    destruct (small_channel n) as [x ->]; [lia|done].
  - by apply int_of_str_raise in Hn as ->.
Qed.

(** A color that starts with [#] is read as three hexadecimal pairs
    whatever follows: it either parses, or raises [ValueError]. *)
Lemma parse_color_hash digits :
  match parse_color (String "#" digits) with
  | Ok _ => hex_pairs_valid digits = true
  | Raise e => e = ValueError ∧ hex_pairs_valid digits = false
  end.
Proof.
  unfold parse_color.
  assert (startswith (String "#" digits) "#" = true) as ->
    by (by destruct digits). unfold hex_pairs_valid. cbn [forallb].
  replace (slice (String "#" digits) 1 (String.length (String "#" digits)))
    with digits.
  2:{ unfold slice. cbn. by rewrite Nat.sub_0_r, substring_all. }
  pose proof (hex_channel digits 0) as H0.
  pose proof (hex_channel digits 2) as H2.
  pose proof (hex_channel digits 4) as H4.
  change (0 + 2)%nat with 2%nat in *. change (2 + 2)%nat with 4%nat in *.
  change (4 + 2)%nat with 6%nat in *.
  destruct (channel (Some (slice digits 0 2)) 16) as [r|e];
    [|destruct H0 as [-> ->]; done].
  destruct (channel (Some (slice digits 2 4)) 16) as [g|e];
    [|destruct H2 as [-> ->]; cbn; by rewrite andb_false_r].
  destruct (channel (Some (slice digits 4 6)) 16) as [b|e];
    [|destruct H4 as [-> ->]; cbn; by rewrite !andb_false_r].
  cbn. by rewrite H0, H2, H4.
Qed.

Lemma parse_unrecognized color :
  unrecognized color → parse_color color = Ok (0, 0, 0)%float.
Proof.
  intros [Hhash Hrgb]. unfold parse_color. rewrite Hhash.
  destruct Hrgb as [-> | Hsearch]; [done|].
  rewrite Hsearch. by destruct (startswith color "rgb").
Qed.

(** *** Rounding keeps the sign *)

Lemma digits2_pos_bound (p : positive) :
  2 ^ (Z.pos (digits2_pos p) - 1) ≤ Z.pos p.
Proof.
  induction p as [p IH|p IH|]; cbn [digits2_pos]; [| |done].
  all: rewrite Pos2Z.inj_succ;
    replace (Z.succ (Z.pos (digits2_pos p)) - 1)
      with (Z.succ (Z.pos (digits2_pos p) - 1)) by lia;
    rewrite Z.pow_succ_r by lia; lia.
Qed.

Lemma shr_1_m (mrs : shr_record) :
  0 ≤ shr_m mrs → shr_m (shr_1 mrs) = Z.shiftr (shr_m mrs) 1.
Proof.
  destruct mrs as [m r s]. cbn [shr_m]. intros Hm.
  rewrite <- Z.div2_spec.
  destruct m as [|[p|p|]|p]; cbn; done.
Qed.

Lemma iter_shr_m (n : positive) (mrs : shr_record) :
  0 ≤ shr_m mrs →
  shr_m (SpecFloat.iter_pos shr_1 n mrs) = Z.shiftr (shr_m mrs) (Z.pos n).
Proof.
  revert mrs. induction n as [n IH|n IH|]; intros mrs Hm; cbn [SpecFloat.iter_pos].
  - assert (0 ≤ shr_m (shr_1 mrs))
      by (rewrite shr_1_m by done; by apply Z.shiftr_nonneg).
    assert (0 ≤ shr_m (SpecFloat.iter_pos shr_1 n (shr_1 mrs)))
      by (rewrite IH by done; by apply Z.shiftr_nonneg).
    rewrite !IH, shr_1_m, !Z.shiftr_shiftr by (done || lia).
    f_equal. lia.
  - assert (0 ≤ shr_m (SpecFloat.iter_pos shr_1 n mrs))
      by (rewrite IH by done; by apply Z.shiftr_nonneg).
    rewrite !IH, !Z.shiftr_shiftr by (done || lia).
    f_equal. lia.
  - by apply shr_1_m.
Qed.

Lemma shr_record_of_loc_m (m : Z) (l : location) :
  shr_m (shr_record_of_loc m l) = m.
Proof. by destruct l as [|[]]. Qed.

Lemma shr_fexp_nonneg (m e : Z) (l : location) :
  0 ≤ m → 0 ≤ shr_m (shr_fexp prec emax m e l).1.
Proof.
  intros Hm. unfold shr_fexp, shr.
  destruct (fexp prec emax (Zdigits2 m + e) - e) as [|n|n]; cbn [fst];
    rewrite ?iter_shr_m, ?shr_record_of_loc_m;
    rewrite ?shr_record_of_loc_m; try done.
  by apply Z.shiftr_nonneg.
Qed.

Lemma shr_fexp_pos (m e : Z) (l : location) :
  0 < m → emin ≤ e →
  0 < shr_m (shr_fexp prec emax m e l).1
  ∧ emin ≤ (shr_fexp prec emax m e l).2.
Proof.
  intros Hm He. unfold shr_fexp, shr.
  destruct (fexp prec emax (Zdigits2 m + e) - e) as [|n|n] eqn:Hn;
    cbn [fst snd]; rewrite ?shr_record_of_loc_m; try done.
  rewrite iter_shr_m by (rewrite shr_record_of_loc_m; lia).
  rewrite shr_record_of_loc_m.
  unfold fexp, SpecFloat.emin in *. change prec with 53 in *.
  change emax with 1024 in *. split; [|lia].
  destruct m as [|p|p]; try done. cbn [Zdigits2] in Hn.
  pose proof (digits2_pos_bound p) as Hp.
  rewrite Z.shiftr_div_pow2 by lia.
  assert (2 ^ Z.pos n ≤ 2 ^ (Z.pos (digits2_pos p) - 1))
    by (apply Z.pow_le_mono_r; lia).
  apply Z.div_str_pos. split; [|lia]. by apply Z.pow_pos_nonneg.
Qed.

Lemma round_nearest_even_ge (m : Z) (l : location) :
  m ≤ round_nearest_even m l.
Proof. destruct l as [|[]]; cbn; try lia. destruct (Z.even m); lia. Qed.

Lemma binary_round_aux_sign (s : bool) (m e : Z) (l : location) :
  0 ≤ m →
  match binary_round_aux prec emax s m e l with
  | S754_zero s' | S754_finite s' _ _ | S754_infinity s' => s' = s
  | S754_nan => False
  end.
Proof.
  intros Hm. unfold binary_round_aux.
  pose proof (shr_fexp_nonneg m e l Hm) as H1.
  destruct (shr_fexp prec emax m e l) as [mrs' e']. cbn [fst] in H1.
  pose proof (round_nearest_even_ge (shr_m mrs') (loc_of_shr_record mrs')).
  pose proof (shr_fexp_nonneg
                (round_nearest_even (shr_m mrs') (loc_of_shr_record mrs'))
                e' loc_Exact) as H2.
  destruct (shr_fexp prec emax _ e' loc_Exact) as [mrs'' e''].
  cbn [fst] in H2.
  destruct (shr_m mrs'') as [|p|p]; [done| |lia].
  by destruct (e'' <=? emax - prec).
Qed.

Lemma binary_round_aux_positive (m e : Z) (l : location) :
  0 < m → emin ≤ e →
  positive_float (binary_round_aux prec emax false m e l).
Proof.
  intros Hm He. unfold binary_round_aux.
  pose proof (shr_fexp_pos m e l Hm He) as [H1 He'].
  destruct (shr_fexp prec emax m e l) as [mrs' e']. cbn [fst snd] in *.
  pose proof (round_nearest_even_ge (shr_m mrs') (loc_of_shr_record mrs')).
  pose proof (shr_fexp_pos
                (round_nearest_even (shr_m mrs') (loc_of_shr_record mrs'))
                e' loc_Exact) as [H2 _]; [lia|done|].
  destruct (shr_fexp prec emax _ e' loc_Exact) as [mrs'' e''].
  cbn [fst] in H2.
  destruct (shr_m mrs'') as [|p|p]; [lia| |lia].
  by destruct (e'' <=? emax - prec).
Qed.

Lemma binary_round_sign (s : bool) (m : positive) (e : Z) :
  match binary_round prec emax s m e with
  | S754_zero s' | S754_finite s' _ _ | S754_infinity s' => s' = s
  | S754_nan => False
  end.
Proof.
  unfold binary_round. destruct (shl_align m e _) as [mz ez].
  by apply binary_round_aux_sign.
Qed.

Lemma binary_round_positive (m : positive) (e : Z) :
  emin ≤ e → positive_float (binary_round prec emax false m e).
Proof.
  intros He. unfold binary_round.
  set (e' := fexp prec emax (Z.pos (digits2_pos m) + e)).
  assert (emin ≤ e') by (unfold e', fexp, SpecFloat.emin; lia).
  unfold shl_align. destruct (e' - e) as [|d|d];
    by apply binary_round_aux_positive.
Qed.

(** *** Luminances and their sums *)

Lemma leb_zero (x : float) :
  PrimFloat.leb 0 x = true → zero_or_positive (Prim2SF x).
Proof.
  rewrite FloatAxioms.leb_spec. unfold SFleb.
  change (Prim2SF 0) with (S754_zero false).
  by destruct (Prim2SF x) as [s|[]| |[]].
Qed.

Lemma mul_zero_or_positive (c x : float) :
  positive_float (Prim2SF c) → Prim2SF c ≠ S754_infinity false →
  zero_or_positive (Prim2SF x) → zero_or_positive (Prim2SF (c * x)).
Proof.
  rewrite mul_spec.
  destruct (Prim2SF c) as [|sc| |sc mc ec]; cbn; try done.
  { by intros ->. }
  intros -> _.
  destruct (Prim2SF x) as [sx|sx| |sx mx ex]; cbn; try done.
  intros ->. cbn.
  pose proof (binary_round_aux_sign false (Z.pos (mc * mx)) (ec + ex)
                loc_Exact) as Hsign.
  destruct (binary_round_aux _ _ _ _ _ _); try done; by apply Hsign.
Qed.

Lemma add_zero_or_positive (x y : float) :
  zero_or_positive (Prim2SF x) → zero_or_positive (Prim2SF y) →
  zero_or_positive (Prim2SF (x + y)).
Proof.
  rewrite add_spec.
  destruct (Prim2SF x) as [sx|sx| |sx mx ex],
    (Prim2SF y) as [sy|sy| |sy my ey]; cbn; try done;
    try (by destruct sx, sy); try (by intros -> ->).
  intros -> ->. cbn [cond_Zopp].
  rewrite <- Pos2Z.inj_add. cbn [binary_normalize].
  match goal with
  | |- context [binary_round _ _ false ?m ?e] =>
      pose proof (binary_round_sign false m e) as Hsign
  end.
  destruct (binary_round _ _ _ _ _); try done; by apply Hsign.
Qed.

Lemma valid_exponent (x : float) (s : bool) (m : positive) (e : Z) :
  Prim2SF x = S754_finite s m e → emin ≤ e.
Proof.
  intros Hx. pose proof (Prim2SF_valid x) as Hvalid. rewrite Hx in Hvalid.
  cbn in Hvalid. apply andb_true_iff in Hvalid as [Hcanon _].
  unfold canonical_mantissa in Hcanon. apply Z.eqb_eq in Hcanon.
  unfold fexp, SpecFloat.emin in *. lia.
Qed.

(** The denominator of a ratio is never zero. *)
Lemma add_offset_nonzero (x : float) :
  zero_or_positive (Prim2SF x) → PrimFloat.eqb (x + 0.05) 0 = false.
Proof.
  intros Hx. rewrite FloatAxioms.eqb_spec, add_spec.
  change (Prim2SF 0) with (S754_zero false).
  pose proof (valid_exponent 0.05) as Hoffset.
  destruct (Prim2SF 0.05) as [| | |so mo eo] eqn:Ho; try done.
  assert (so = false) as -> by (by vm_compute in Ho; simplify_eq).
  specialize (Hoffset _ _ _ eq_refl).
  pose proof (valid_exponent x) as Hvalid.
  destruct (Prim2SF x) as [sx|sx| |sx mx ex]; cbn in Hx |- *; try done.
  - by subst sx.
  - subst sx. specialize (Hvalid _ _ _ eq_refl).
    cbn [cond_Zopp]. rewrite <- Pos2Z.inj_add. cbn [binary_normalize].
    match goal with
    | |- context [binary_round _ _ false ?m ?e] =>
        pose proof (binary_round_positive m e) as Hpos
    end.
    destruct (binary_round _ _ _ _ _) as [|[]| |[]];
      try done; exfalso; apply Hpos; lia.
Qed.

(** *** Colors that parse to channel values *)

Lemma not_infinity (x : float) :
  PrimFloat.leb 0 x = true → PrimFloat.leb x 1 = true →
  is_infinity x = false.
Proof.
  unfold is_infinity.
  rewrite FloatAxioms.eqb_spec, abs_spec, !FloatAxioms.leb_spec.
  change (Prim2SF 0) with (S754_zero false).
  change (Prim2SF infinity) with (S754_infinity false).
  destruct (Prim2SF 1) as [| | |s1 m1 e1] eqn:Hone; try done.
  by destruct (Prim2SF x) as [s|[]| |s m e].
Qed.

Lemma adjust_in_gamut libm_pow (n : Z) (x : float) :
  unit_pow libm_pow → 0 ≤ n ≤ 255 →
  int_truediv_float n 255 = Ok x →
  ∃ a, adjust_color_value libm_pow x = Ok a
       ∧ zero_or_positive (Prim2SF a).
Proof.
  intros Hpow Hn Hx.
  assert (Hall : forallb
            (fun k =>
               match int_truediv_float (Z.of_nat k) 255 with
               | Ok v =>
                   if PrimFloat.leb v 0.03928
                   then PrimFloat.leb 0 (v / 12.92)
                   else
                     let base := ((v + 0.055) / 1.055)%float in
                     negb (is_nan base)
                     && (PrimFloat.eqb base 1
                         || PrimFloat.ltb 0 base && PrimFloat.leb base 1)
               | Raise _ => false
               end)
            (seq 0 256) = true) by (vm_compute; reflexivity).
  rewrite forallb_forall in Hall.
  specialize (Hall (Z.to_nat n)). rewrite Z2Nat.id, Hx in Hall by lia.
  specialize (Hall ltac:(apply in_seq; lia)).
  unfold adjust_color_value.
  destruct (PrimFloat.leb x 0.03928).
  { eexists. split; [done|]. by apply leb_zero. }
  cbn zeta in Hall. apply andb_true_iff in Hall as [Hnan Hbase].
  apply negb_true_iff in Hnan.
  unfold float_pow.
  change (PrimFloat.eqb 2.4 0) with false.
  change (is_nan 2.4) with false. rewrite Hnan. cbn [negb andb].
  destruct (PrimFloat.eqb ((x + 0.055) / 1.055) 1).
  { eexists. split; [done|]. by apply leb_zero. }
  cbn [orb] in Hbase. apply andb_true_iff in Hbase as [Hlow Hhigh].
  destruct (Hpow _ Hlow Hhigh) as [Hzero Hone].
  rewrite (not_infinity _ Hzero Hone). cbn [andb].
  eexists. split; [done|]. by apply leb_zero.
Qed.

Lemma luminance_in_gamut libm_pow (r g b : Z) (x y z : float) :
  unit_pow libm_pow →
  0 ≤ r ≤ 255 → 0 ≤ g ≤ 255 → 0 ≤ b ≤ 255 →
  int_truediv_float r 255 = Ok x →
  int_truediv_float g 255 = Ok y →
  int_truediv_float b 255 = Ok z →
  ∃ l, get_luminance libm_pow x y z = Ok l
       ∧ PrimFloat.eqb (l + 0.05) 0 = false.
Proof.
  intros Hpow Hr Hg Hb Hx Hy Hz.
  destruct (adjust_in_gamut libm_pow r x Hpow Hr Hx) as (r' & Hr' & Hpr).
  destruct (adjust_in_gamut libm_pow g y Hpow Hg Hy) as (g' & Hg' & Hpg).
  destruct (adjust_in_gamut libm_pow b z Hpow Hb Hz) as (b' & Hb' & Hpb).
  unfold get_luminance. rewrite Hr'. cbn. rewrite Hg'. cbn. rewrite Hb'. cbn.
  eexists. split; [done|].
  apply add_offset_nonzero.
  repeat apply add_zero_or_positive;
    (apply mul_zero_or_positive; [by vm_compute|by vm_compute|done]).
Qed.

Lemma hex_digit_pair (c d : ascii) :
  isxdigit c = true → isxdigit d = true →
  ∃ (n : Z) (x : float),
    0 ≤ n ≤ 255
    ∧ channel (Some (String c (String d ""))) 16 = Ok x
    ∧ int_truediv_float n 255 = Ok x.
Proof.
  intros Hc Hd.
  assert (Hall : forallb
            (fun i =>
               forallb
                 (fun j =>
                    let c := ascii_of_nat i in
                    let d := ascii_of_nat j in
                    implb (isxdigit c && isxdigit d)
                      match int_of_str (String c (String d "")) 16 with
                      | Ok n => (0 <=? n) && (n <=? 255)
                      | Raise _ => false
                      end)
                 (seq 0 256))
            (seq 0 256) = true) by (vm_compute; reflexivity).
  rewrite forallb_forall in Hall.
  pose proof (nat_ascii_bounded c). pose proof (nat_ascii_bounded d).
  specialize (Hall (nat_of_ascii c) ltac:(apply in_seq; lia)).
  rewrite forallb_forall in Hall.
  specialize (Hall (nat_of_ascii d) ltac:(apply in_seq; lia)).
  cbn zeta in Hall. rewrite !ascii_nat_embedding, Hc, Hd in Hall.
  cbn [andb implb] in Hall. unfold channel.
  destruct (int_of_str (String c (String d "")) 16) as [n|]; [|done].
  apply andb_true_iff in Hall as [Hlow%Z.leb_le Hhigh%Z.leb_le].
  destruct (small_channel n) as [x Hx]; [lia|].
  exists n, x. cbn. by rewrite Hx.
Qed.

Lemma hex_color_in_gamut (color : string) :
  hex_color color = true → in_gamut color.
Proof.
  destruct color as [|h [|r1 [|r2 [|g1 [|g2 [|b1 [|b2 rest]]]]]]];
    try done.
  cbn [hex_color forallb]. rewrite !andb_true_iff.
  intros (Hh%Stdlib.Strings.Ascii.eqb_eq
          & Hr1 & Hr2 & Hg1 & Hg2 & Hb1 & Hb2 & _).
  subst h.
  destruct (hex_digit_pair r1 r2 Hr1 Hr2) as (r & x & Hr & Hcx & Hx).
  destruct (hex_digit_pair g1 g2 Hg1 Hg2) as (g & y & Hg & Hcy & Hy).
  destruct (hex_digit_pair b1 b2 Hb1 Hb2) as (b & z & Hb & Hcz & Hz).
  exists r, g, b, x, y, z. split_and!; try lia; try done.
  unfold parse_color.
  assert (startswith (String "#" (String r1 (String r2 (String g1 (String g2
            (String b1 (String b2 rest))))))) "#" = true) as -> by done.
  unfold slice. cbn [String.length Nat.sub String.substring].
  assert (Hempty : ∀ s, String.substring 0 0 s = "") by (by intros []).
  rewrite Hempty, Hcx. cbn [mbind result_bind].
  rewrite Hcy. cbn [mbind result_bind]. by rewrite Hcz.
Qed.

Lemma unrecognized_in_gamut (color : string) :
  unrecognized color → in_gamut color.
Proof.
  intros Hcolor%parse_unrecognized.
  exists 0, 0, 0, 0%float, 0%float, 0%float.
  split_and!; try done; by vm_compute.
Qed.

Lemma ratio_in_gamut libm_pow (color1 color2 : string) :
  unit_pow libm_pow → in_gamut color1 → in_gamut color2 →
  ∃ ratio, calculate_contrast_ratio libm_pow color1 color2 = Ok ratio.
Proof.
  intros Hpow (r1 & g1 & b1 & x1 & y1 & z1 & (Hr1 & Hg1 & Hb1)
               & Hx1 & Hy1 & Hz1 & Hparse1)
    (r2 & g2 & b2 & x2 & y2 & z2 & (Hr2 & Hg2 & Hb2)
     & Hx2 & Hy2 & Hz2 & Hparse2).
  destruct (luminance_in_gamut libm_pow r1 g1 b1 x1 y1 z1)
    as (l1 & Hl1 & Hd1); try done.
  destruct (luminance_in_gamut libm_pow r2 g2 b2 x2 y2 z2)
    as (l2 & Hl2 & Hd2); try done.
  unfold calculate_contrast_ratio. rewrite Hparse1, Hparse2. cbn.
  rewrite Hl1. cbn. rewrite Hl2. cbn. unfold float_truediv.
  rewrite Hd1, Hd2. destruct (PrimFloat.ltb l2 l1); by eexists.
Qed.




(** C8. Black on white has the contrast ratio 21.0 exactly, whatever the
    platform's [pow] is: white has luminance 1.0 and black 0.0, and the
    base 1.0 is raised to 2.4 by the interpreter itself. *)
Theorem black_on_white libm_pow :
  calculate_contrast_ratio libm_pow "#000000" "#ffffff" = Ok 21%float.
Proof. by vm_compute. Qed.

End colors.

(** ** CSS color extraction *)

Section css_colors.

Lemma list_set_spec (l : list string) :
  NoDup (list_set l) ∧ ∀ x, x ∈ list_set l ↔ x ∈ l.
Proof.
  unfold list_set. split; [apply NoDup_elements|].
  intros x. by rewrite elem_of_elements, elem_of_list_to_set.
Qed.

(** What a collecting loop lets through. *)
Lemma collect_excluded (patterns : list regex) (i : nat)
    (excluded : list string) (css_content color : string) :
  color ∈ collect patterns i excluded css_content →
  color ≠ "" ∧ color ∉ excluded.
Proof.
  unfold collect.
  intros (pattern & Hcolor & _)%list_elem_of_bind.
  apply list_elem_of_bind in Hcolor as (m & Hcolor & _).
  destruct (group m i) as [text|]; [|by apply elem_of_nil in Hcolor].
  case_bool_decide; [by apply elem_of_nil in Hcolor|].
  destruct (bool_decide (strip text ≠ "") && _) eqn:Hkeep;
    [|by apply elem_of_nil in Hcolor].
  apply list_elem_of_singleton in Hcolor as ->.
  apply andb_true_iff in Hkeep as [Hne Hall].
  apply bool_decide_eq_true in Hne. split; [done|].
  rewrite forallb_forall in Hall. intros Hin.
  apply list_elem_of_In, Hall, bool_decide_eq_true in Hin. done.
Qed.

(** C6, as stated, fails: a text or link color [transparent] is kept. *)
Lemma transparent_text_kept :
  text (extract_css_colors "p { color: transparent }") = ["transparent"]
  ∧ link (extract_css_colors "a { color: transparent }") = ["transparent"].
Proof. by vm_compute. Qed.

(** C6, amended. For every CSS text each of the three lists is free of
    duplicates and of empty entries; the background list contains none of
    [transparent], [inherit] and [initial]; the text list and the link
    list contain neither [inherit] nor [initial]. *)
Theorem css_colors_filtered (css_content : string) :
  let colors := extract_css_colors css_content in
  (NoDup (background colors) ∧ NoDup (text colors) ∧ NoDup (link colors))
  ∧ (("" ∉ background colors) ∧ ("" ∉ text colors) ∧ ("" ∉ link colors))
  ∧ (("transparent" ∉ background colors) ∧ ("inherit" ∉ background colors)
     ∧ ("initial" ∉ background colors))
  ∧ (("inherit" ∉ text colors) ∧ ("initial" ∉ text colors))
  ∧ (("inherit" ∉ link colors) ∧ ("initial" ∉ link colors)).
Proof.
  cbn zeta. unfold extract_css_colors. cbn [background text link].
  split_and!; try apply list_set_spec.
  all: rewrite (proj2 (list_set_spec _));
    intros [Hne Hex]%collect_excluded; (done || set_solver).
Qed.

End css_colors.

(** ** Score aggregation *)

Section aggregation.

Import Core.

(** C7. The performance score is 100 minus one load-time deduction (30
    above 3 s, else 15 above 2 s, else 5 above 1 s) and one size deduction
    (20 above 2 MB, else 10 above 1 MB), floored at 0, which with these
    deductions leaves it between 50 and 100.  The overall score is
    0.4 x performance + 0.4 x accessibility + 0.2 x security, computed in
    floats and rounded to one decimal; it is produced whenever the security
    score is one that [calculate_security_score] can store (0 to 100). *)
Theorem calculate_scores_spec (r : results) :
  let load_time := default 0%float (total_load_time r) in
  let size_mb := default 0%float (response_size_mb r) in
  let perf :=
    Z.max 0 (100 - load_time_deduction load_time - size_deduction size_mb) in
  let acc :=
    default 0%float (wcag_compliance r ≫= Wcag.level_aa_percentage) in
  let sec := default 0 (security_score r) in
  50 ≤ perf ≤ 100
  ∧ ∃ p, float_of_int perf = Ok p
    ∧ _calculate_scores r
      = (s ← float_of_int sec;
         mret {| performance := perf;
                 accessibility := acc;
                 security := sec;
                 overall := round1 (p * 0.4 + acc * 0.4 + s * 0.2)%float |})
    ∧ (0 ≤ sec ≤ 100 → ∃ scores, _calculate_scores r = Ok scores).
Proof.
  cbn zeta.
  set (load_time := default 0%float (total_load_time r)).
  set (size_mb := default 0%float (response_size_mb r)).
  set (perf := Z.max 0 _).
  assert (Hperf : 50 ≤ perf ≤ 100).
  { subst perf. unfold load_time_deduction, size_deduction.
    repeat match goal with
    | |- context [PrimFloat.ltb ?a ?b] => destruct (PrimFloat.ltb a b)
    end; lia. }
  split; [done|].
  destruct (float_of_int_small perf) as [p Hp]; [lia|].
  exists p. split; [done|].
  assert (Heq : _calculate_scores r
    = (s ← float_of_int (default 0 (security_score r));
       mret {| performance := perf;
               accessibility :=
                 default 0%float
                   (wcag_compliance r ≫= Wcag.level_aa_percentage);
               security := default 0 (security_score r);
               overall :=
                 round1 (p * 0.4
                         + default 0%float
                             (wcag_compliance r ≫= Wcag.level_aa_percentage)
                           * 0.4
                         + s * 0.2)%float |})).
  { unfold _calculate_scores. fold load_time size_mb.
    assert (Z.max 0
              (let perf_score :=
                 if PrimFloat.ltb 3 load_time then 100 - 30
                 else if PrimFloat.ltb 2 load_time then 100 - 15
                 else if PrimFloat.ltb 1 load_time then 100 - 5 else 100 in
               if PrimFloat.ltb 2 size_mb then perf_score - 20
               else if PrimFloat.ltb 1 size_mb then perf_score - 10
               else perf_score) = perf) as Hmax.
    { subst perf. unfold load_time_deduction, size_deduction. cbn zeta.
      repeat match goal with
      | |- context [PrimFloat.ltb ?a ?b] => destruct (PrimFloat.ltb a b)
      end; lia. }
    cbn zeta in Hmax |- *. rewrite Hmax, Hp. cbn.
    by destruct (wcag_compliance r). }
  split; [done|].
  intros Hsec. rewrite Heq.
  destruct (float_of_int_small (default 0 (security_score r)))
    as [s ->]; [lia|]. by eexists.
Qed.

Example calculate_scores_case :
  _calculate_scores
    {| total_load_time := Some 2.5%float;
       response_size_mb := Some 1.5%float;
       wcag_compliance :=
         Some {| Wcag.level_aa_percentage := Some 73.3%float |};
       security_score := Some 60 |}
  = Ok {| performance := 75;
          accessibility := 73.3%float;
          security := 60;
          overall := 71.3%float |}.
Proof. by vm_compute. Qed.

Lemma calculate_scores_spec_witness :
  ∃ scores,
    _calculate_scores
      {| total_load_time := Some 2.5%float;
         response_size_mb := Some 1.5%float;
         wcag_compliance :=
           Some {| Wcag.level_aa_percentage := Some 73.3%float |};
         security_score := Some 60 |} = Ok scores.
Proof.
  destruct (calculate_scores_spec
              {| total_load_time := Some 2.5%float;
                 response_size_mb := Some 1.5%float;
                 wcag_compliance :=
                   Some {| Wcag.level_aa_percentage := Some 73.3%float |};
                 security_score := Some 60 |})
    as (_ & p & _ & _ & Hreturns).
  apply Hreturns. cbn. lia.
Defined.

End aggregation.

(** ** Nested lookup *)

Section lookup.

Import Lookup.

Implicit Types (s a b key path : string) (d : gmap string value).

Lemma chr_eqb_eq (c c' : ascii) : chr_eqb c c' = true ↔ c = c'.
Proof. apply Stdlib.Strings.Ascii.eqb_eq. Qed.

Lemma split_on_cons (sep : ascii) s :
  ∃ piece pieces, split_on sep s = piece :: pieces
                  ∧ (String.length piece ≤ String.length s)%nat.
Proof.
  induction s as [|c s (piece & pieces & IH & Hlen)]; [by exists "", []|].
  cbn [split_on]. destruct (chr_eqb c sep).
  - exists "", (split_on sep s). split; [done|cbn; lia].
  - rewrite IH. exists (String c piece), pieces. split; [done|cbn; lia].
Qed.

Lemma split_on_app (sep : ascii) a b :
  split_on sep (a +:+ String sep b) = split_on sep a ++ split_on sep b.
Proof.
  induction a as [|c a IH].
  - change ("" +:+ String sep b) with (String sep b). cbn [split_on].
    by rewrite (proj2 (chr_eqb_eq sep sep) eq_refl).
  - change (String c a +:+ String sep b) with (String c (a +:+ String sep b)).
    cbn [split_on]. destruct (chr_eqb c sep); [by rewrite IH|].
    rewrite IH. by destruct (split_on_cons sep a) as (? & ? & -> & _).
Qed.

Lemma split_on_plain (sep : ascii) s :
  (∀ a b, s ≠ a +:+ String sep b) → split_on sep s = [s].
Proof.
  induction s as [|c s IH]; intros Hplain; [done|]. cbn [split_on].
  destruct (chr_eqb c sep) eqn:Hc.
  - apply chr_eqb_eq in Hc as ->. by destruct (Hplain "" s).
  - rewrite IH; [done|]. intros a b ->. by destruct (Hplain (String c a) b).
Qed.

Lemma not_dotted key : length (split_on "." key) = 1%nat → ¬ dotted key.
Proof.
  intros Hlen (a & b & ->).
  change (a +:+ "." +:+ b) with (a +:+ String "." b) in Hlen.
  rewrite split_on_app, length_app in Hlen.
  destruct (split_on_cons "." a) as (? & ? & Ha & _).
  destruct (split_on_cons "." b) as (? & ? & Hb & _).
  rewrite Ha, Hb in Hlen. cbn in Hlen. lia.
Qed.

Lemma length_append a b :
  String.length (a +:+ b) = (String.length a + String.length b)%nat.
Proof.
  induction a as [|c a IH]; [done|].
  change (String c a +:+ b) with (String c (a +:+ b)).
  cbn [String.length]. by rewrite IH.
Qed.

Lemma walk_app (keys1 keys2 : list string) (current dflt : value) :
  keys2 ≠ [] →
  walk (keys1 ++ keys2) current dflt
  = walk keys2 (walk keys1 current (VDict ∅)) dflt.
Proof.
  intros Hkeys2. revert current.
  induction keys1 as [|key keys1 IH]; intros current; [done|].
  assert (walk keys2 (VDict ∅) dflt = dflt) as Hempty
    by (by destruct keys2).
  cbn. destruct current as [| | | | | |d]; try done.
  destruct (d !! key); [apply IH|done].
Qed.

(** X1. A path can be followed in two steps: looking up [p.q] is the same
    as looking up [q] in what [safe_get] returns for [p] with the empty
    dictionary as default, for every tree, default and strings [p], [q]. *)
Theorem safe_get_compose (dictionary dflt : value) (p q : string) :
  safe_get dictionary (p +:+ "." +:+ q) dflt
  = safe_get (safe_get dictionary p (VDict ∅)) q dflt.
Proof.
  unfold safe_get. change (p +:+ "." +:+ q) with (p +:+ String "." q).
  rewrite split_on_app. apply walk_app.
  by destruct (split_on_cons "." q) as (? & ? & -> & _).
Qed.

(** X2. An entry whose key contains a dot is never found: the path is cut
    at its dots first, so for such a key the result is the same whether the
    dictionary holds an entry under it or not. *)
Theorem safe_get_dotted_key d key (v dflt : value) :
  dotted key →
  safe_get (VDict (<[key := v]> d)) key dflt
  = safe_get (VDict (delete key d)) key dflt.
Proof.
  intros (a & b & ->). unfold safe_get.
  change (a +:+ "." +:+ b) with (a +:+ String "." b).
  rewrite split_on_app.
  destruct (split_on_cons "." a) as (piece & pieces & -> & Hlen).
  assert (piece ≠ a +:+ String "." b).
  { intros ->. rewrite length_append in Hlen. cbn in Hlen. lia. }
  cbn. by rewrite lookup_insert_ne, lookup_delete_ne.
Qed.

Lemma safe_get_dotted_key_witness :
  safe_get (VDict (<["a.b" := VInt 1]> ∅)) "a.b" VNone
  = safe_get (VDict (delete "a.b" ∅)) "a.b" VNone.
Proof.
  apply (safe_get_dotted_key ∅ "a.b" (VInt 1) VNone).
  by exists "a", "b".
Defined.

(** X3. For a key without a dot, what is stored is what is found: the
    value under the key itself, and below a dictionary stored under the key
    whatever the rest of the path finds in that dictionary. *)
Theorem safe_get_insert d d' key path (v dflt : value) :
  ¬ dotted key →
  safe_get (VDict (<[key := v]> d)) key dflt = v
  ∧ safe_get (VDict (<[key := VDict d']> d)) (key +:+ "." +:+ path) dflt
    = safe_get (VDict d') path dflt.
Proof.
  intros Hplain.
  assert (Hsplit : split_on "." key = [key]).
  { apply split_on_plain. intros a b ->. apply Hplain. by exists a, b. }
  split.
  - unfold safe_get. rewrite Hsplit. cbn. by rewrite lookup_insert_eq.
  - change (key +:+ "." +:+ path) with (key +:+ String "." path).
    unfold safe_get. rewrite split_on_app, Hsplit. cbn.
    by rewrite lookup_insert_eq.
Qed.

Lemma safe_get_insert_witness :
  safe_get (VDict (<["security" := VInt 7]> ∅)) "security" VNone = VInt 7
  ∧ safe_get (VDict (<["security" := VDict {[ "score" := VInt 7 ]}]> ∅))
      ("security" +:+ "." +:+ "score") VNone
    = safe_get (VDict {[ "score" := VInt 7 ]}) "score" VNone.
Proof.
  apply (safe_get_insert ∅ {[ "score" := VInt 7 ]} "security" "score").
  apply not_dotted. reflexivity.
Defined.

End lookup.

(** ** Security findings *)

Section security_findings.

Import Security Run.

Lemma filter_le {A} (p : A → bool) (l : list A) :
  (length (List.filter p l) ≤ length l)%nat.
Proof.
  induction l as [|x l IH]; [done|].
  cbn. destruct (p x); cbn; lia.
Qed.

Lemma rating_closed_form (security : t) :
  rating (calculate_security_score security)
  = Some (rating_band (100 - total_deductions security)).
Proof.
  unfold calculate_security_score, total_deductions, rating_band.
  cbn [rating].
  unfold missing_of, ssl_issues_of, xss_vectors_of, mixed_of,
    insecure_forms_of.
  match goal with
  | |- Some (if 90 <=? ?x then _ else _) = Some (if 90 <=? ?y then _ else _) =>
      assert (x = y) as ->; [|done]
  end.
  destruct (default false (https_enabled security));
    cbn [negb]; rewrite !deduct_score by lia; cbn; lia.
Qed.

(** X4. The verbal rating always agrees with the stored score: although
    it is computed from the score before the floor at 0, it is the band
    (90, 75, 50, 25) that the stored score lies in. *)
Theorem rating_matches_score (security : t) :
  ∃ v : Z,
    score (calculate_security_score security) = Some v
    ∧ rating (calculate_security_score security) = Some (rating_band v).
Proof.
  exists (Z.max 0 (100 - total_deductions security)).
  split; [apply score_closed_form|].
  rewrite rating_closed_form. f_equal. unfold rating_band.
  destruct (Z.le_gt_cases 0 (100 - total_deductions security)).
  - by rewrite Z.max_r.
  - rewrite Z.max_l by lia.
    repeat match goal with
    | |- context [?a <=? ?b] => destruct (Z.leb_spec a b); try lia
    end. done.
Qed.

(** X5. The full score 100 is stored exactly when nothing is deducted: no
    header is missing, HTTPS is on, and there is no SSL issue, no XSS
    vector, no mixed content and no insecure form. *)
Theorem perfect_score (security : t) :
  score (calculate_security_score security) = Some 100
  ↔ missing_of security = 0
    ∧ default false (https_enabled security) = true
    ∧ ssl_issues_of security = 0
    ∧ xss_vectors_of security = 0
    ∧ mixed_of security = 0
    ∧ insecure_forms_of security = 0.
Proof.
  rewrite score_closed_form. unfold total_deductions.
  assert (0 ≤ missing_of security) by (unfold missing_of; lia).
  assert (0 ≤ ssl_issues_of security) by (unfold ssl_issues_of; lia).
  assert (0 ≤ xss_vectors_of security) by (unfold xss_vectors_of; lia).
  assert (0 ≤ mixed_of security) by (unfold mixed_of; lia).
  assert (0 ≤ insecure_forms_of security) by (unfold insecure_forms_of; lia).
  destruct (default false (https_enabled security)); split.
  - intros [= Hmax]. split_and!; (done || lia).
  - intros (-> & _ & -> & -> & -> & ->). done.
  - intros [= Hmax]. lia.
  - intros (_ & [=] & _).
Qed.

Lemma header_value (response_headers : gmap string string)
    (name fallback : string) :
  headers_get response_headers name fallback ≠ "Missing"
  ↔ header_sent response_headers name
    ∨ (response_headers !! str_lower name = None ∧ fallback ≠ "Missing").
Proof.
  unfold headers_get, header_sent.
  destruct (response_headers !! str_lower name) as [value|]; cbn.
  - split; [intros Hvalue; left; by exists value|].
    by intros [(v & [= <-] & Hv) | [[=] _]].
  - split; [by right|]. by intros [(v & [=] & _) | [_ Hfallback]].
Qed.


(** X7. The TLS check records at most one issue, so the SSL deduction of
    the score is 0 or 10 and its cap of 30 is never reached; it records no
    issue exactly for an HTTPS page whose certificate has 30 or more days
    left. *)
Theorem ssl_issues_at_most_one (parsed_url : ParseResult)
    (handshake : string → tls_outcome) (security : t) :
  ∃ found : list string,
    ssl_issues (check_ssl_tls parsed_url handshake security) = Some found
    ∧ (length found ≤ 1)%nat
    ∧ (found = []
       ↔ scheme parsed_url = "https"
         ∧ ∃ days, handshake (netloc parsed_url) = Certificate days
                   ∧ 30 ≤ days).
Proof.
  unfold check_ssl_tls. cbn [ssl_issues]. eexists. split; [reflexivity|].
  case_bool_decide as Hscheme; cbn [negb].
  - destruct (handshake (netloc parsed_url)) as [days|e].
    + destruct (Z.ltb_spec days 30).
      * split; [cbn; lia|]. split; [done|].
        intros (_ & days' & [= <-] & ?). lia.
      * split; [cbn; lia|]. split; [|done]. intros _. by eauto.
    + split; [cbn; lia|]. split; [done|]. by intros (_ & ? & ? & _).
  - split; [cbn; lia|]. split; [done|]. by intros [? _].
Qed.

(** The findings on a page that is not fetched over HTTPS. *)
Lemma analyze_without_https soup response_headers parsed_url handshake :
  scheme parsed_url ≠ "https" →
  ∃ security,
    analyze soup response_headers parsed_url handshake
    = calculate_security_score security
    ∧ https_enabled security = Some false
    ∧ ssl_issues security = Some ["HTTPS not enabled"]
    ∧ mixed_content security
      = Some {| MixedContent.status := "N/A - not using HTTPS";
                MixedContent.items := None;
                MixedContent.count := None |}.
Proof.
  intros Hscheme. eexists. split; [reflexivity|].
  cbn. rewrite bool_decide_false by done. done.
Qed.

(** X8. A page that is not fetched over HTTPS never scores above 40 and is
    never rated better than "Poor", whatever its headers and its content;
    its mixed-content check is skipped, so nothing is deducted for mixed
    content. *)
Theorem http_page_score soup response_headers parsed_url handshake :
  scheme parsed_url ≠ "https" →
  let security := analyze soup response_headers parsed_url handshake in
  ∃ v : Z,
    score security = Some v ∧ 0 ≤ v ≤ 40
    ∧ (rating security = Some "Poor" ∨ rating security = Some "Very Poor")
    ∧ (mixed_content security ≫= MixedContent.count) = None.
Proof.
  intros Hscheme. cbn zeta.
  destruct (analyze_without_https soup response_headers parsed_url handshake
              Hscheme) as (security & -> & Hhttps & Hssl & Hmixed).
  pose proof (total_deductions_nonneg security).
  assert (Hded : 60 ≤ total_deductions security).
  { unfold total_deductions, ssl_issues_of. rewrite Hhttps, Hssl. cbn.
    unfold missing_of, xss_vectors_of, mixed_of, insecure_forms_of. lia. }
  exists (Z.max 0 (100 - total_deductions security)).
  split; [apply score_closed_form|]. split; [lia|]. split.
  - rewrite rating_closed_form. unfold rating_band.
    repeat match goal with
    | |- context [?a <=? ?b] => destruct (Z.leb_spec a b); try lia
    end; by auto.
  - cbn [calculate_security_score mixed_content]. by rewrite Hmixed.
Qed.

Lemma http_page_score_witness :
  ∃ v : Z,
    score scenario = Some v ∧ 0 ≤ v ≤ 40
    ∧ (rating scenario = Some "Poor" ∨ rating scenario = Some "Very Poor")
    ∧ (mixed_content scenario ≫= MixedContent.count) = None.
Proof.
  apply (http_page_score minimal_document ∅
           {| scheme := "http"; netloc := "example.com" |}
           (fun _ => TlsError "unreachable")).
  cbn. discriminate.
Defined.

End security_findings.

(** ** Form security and XSS vectors *)

Section form_security.

Import Security.

(** What one pass of the loop of [check_form_security] does to the
    tallies. *)
Lemma check_form_step (https : bool) (fs : Forms.t) (form : node) :
  let fs' := check_form https fs form in
  Forms.total fs' = Forms.total fs
  ∧ (Forms.with_https fs' ≤ Forms.with_https fs + 1)%nat
  ∧ (Forms.with_autocomplete_off fs' ≤ Forms.with_autocomplete_off fs + 1)%nat
  ∧ ((Forms.with_csrf_protection fs' = Forms.with_csrf_protection fs + 1)%nat
     ∧ (Forms.insecure_forms fs' = Forms.insecure_forms fs
        ∨ ∃ desc, Forms.insecure_forms fs' = Forms.insecure_forms fs ++ [desc]
                  ∧ issues desc ≠ [])
     ∨ Forms.with_csrf_protection fs' = Forms.with_csrf_protection fs
       ∧ ∃ desc, Forms.insecure_forms fs' = Forms.insecure_forms fs ++ [desc]
                 ∧ "No CSRF protection detected" ∈ issues desc).
Proof.
  cbn zeta. unfold check_form.
  repeat match goal with
  | |- context [if ?b then _ else _] => destruct b
  end;
  cbn [Forms.total Forms.with_https Forms.with_autocomplete_off
       Forms.with_csrf_protection Forms.insecure_forms];
  (split; [done|]); (split; [lia|]); (split; [lia|]);
  first
    [ left; split; [done|]; left; done
    | left; split; [done|]; right; eexists; split; [done|]; cbn;
      by destruct (_ ++ _)
    | left; split; [done|]; right; eexists; split; [done|]; done
    | right; split; [done|]; eexists; split; [done|]; cbn; set_solver ].
Qed.

Lemma check_form_loop (https : bool) (forms_ : list node) (init : Forms.t) :
  let final := foldl (check_form https) init forms_ in
  Forms.total final = Forms.total init
  ∧ (Forms.with_https final ≤ Forms.with_https init + length forms_)%nat
  ∧ (Forms.with_autocomplete_off final
     ≤ Forms.with_autocomplete_off init + length forms_)%nat
  ∧ (Forms.with_csrf_protection final
     ≤ Forms.with_csrf_protection init + length forms_)%nat
  ∧ (length (Forms.insecure_forms final)
     ≤ length (Forms.insecure_forms init) + length forms_)%nat
  ∧ (Forms.with_csrf_protection init + length (Forms.insecure_forms init)
       + length forms_
     ≤ Forms.with_csrf_protection final
       + length (Forms.insecure_forms final))%nat
  ∧ (Forall (fun desc => issues desc ≠ []) (Forms.insecure_forms init) →
     Forall (fun desc => issues desc ≠ []) (Forms.insecure_forms final)).
Proof.
  revert init. induction forms_ as [|form forms_ IH]; intros init.
  - cbn. split_and!; (done || lia).
  - cbn [foldl length].
    destruct (IH (check_form https init form))
      as (Htot & Hhttps & Hoff & Hcsrf & Hins & Hcover & Hissues).
    destruct (check_form_step https init form)
      as (Htot1 & Hhttps1 & Hoff1 & Hstep).
    assert (Hlen : (Forms.with_csrf_protection (check_form https init form)
                    ≤ Forms.with_csrf_protection init + 1
                  ∧ length (Forms.insecure_forms (check_form https init form))
                    ≤ length (Forms.insecure_forms init) + 1
                  ∧ Forms.with_csrf_protection init
                    + length (Forms.insecure_forms init) + 1
                    ≤ Forms.with_csrf_protection (check_form https init form)
                      + length (Forms.insecure_forms
                                  (check_form https init form)))%nat
                  ∧ (Forall (fun desc => issues desc ≠ [])
                       (Forms.insecure_forms init) →
                     Forall (fun desc => issues desc ≠ [])
                       (Forms.insecure_forms (check_form https init form)))).
    { destruct Hstep as [[-> [-> | (desc & -> & Hdesc)]]
                        | [-> (desc & -> & Hdesc)]];
        rewrite ?length_app; cbn [length]; split_and!; try lia; try done.
      - intros Hinit. apply Forall_app. split; [done|]. by repeat constructor.
      - intros Hinit. apply Forall_app. split; [done|].
        repeat constructor. intros Hnil. rewrite Hnil in Hdesc.
        by apply elem_of_nil in Hdesc. }
    destruct Hlen as ((? & ? & ?) & Hkeep).
    split_and!; try lia; try congruence.
    intros Hinit. by apply Hissues, Hkeep.
Qed.

(** X9. The form tallies are consistent for every document and every
    state of the findings: [total] is the number of forms, none of the
    counters and not the list of insecure forms exceeds it, every form
    without a CSRF field is listed as insecure (so the forms with CSRF
    protection and the insecure forms together cover all forms), and every
    listed form carries at least one issue. *)
Theorem form_security_tallies (soup : node) (security : t) :
  ∃ fs : Forms.t,
    forms (check_form_security soup security) = Some fs
    ∧ Forms.total fs = length (find_all soup (named "form"))
    ∧ (Forms.with_https fs ≤ Forms.total fs)%nat
    ∧ (Forms.with_autocomplete_off fs ≤ Forms.total fs)%nat
    ∧ (Forms.with_csrf_protection fs ≤ Forms.total fs)%nat
    ∧ (length (Forms.insecure_forms fs) ≤ Forms.total fs)%nat
    ∧ (Forms.total fs
       ≤ Forms.with_csrf_protection fs + length (Forms.insecure_forms fs))%nat
    ∧ Forall (fun desc => issues desc ≠ []) (Forms.insecure_forms fs).
Proof.
  unfold check_form_security. cbn [forms]. eexists. split; [reflexivity|].
  match goal with
  | |- context [foldl (check_form ?https) ?init ?l] =>
      destruct (check_form_loop https l init)
        as (Htot & Hhttps & Hoff & Hcsrf & Hins & Hcover & Hissues)
  end.
  cbn [Forms.total Forms.with_https Forms.with_autocomplete_off
       Forms.with_csrf_protection Forms.insecure_forms length] in *.
  rewrite Htot. split_and!; try lia; try done. by apply Hissues.
Qed.

Lemma length_bind_le {A B} (f : A → list B) (l : list A) (n : nat) :
  (∀ x, length (f x) ≤ n)%nat → (length (l ≫= f) ≤ length l * n)%nat.
Proof.
  intros Hf. induction l as [|x l IH]; [done|].
  rewrite bind_cons, length_app. cbn [length]. specialize (Hf x). lia.
Qed.

Lemma length_slice s (i j : nat) : (String.length (slice s i j) ≤ j - i)%nat.
Proof. apply length_substring. Qed.

(** X10. At most 35 potential XSS vectors are recorded (five per risky
    attribute and five [javascript:] links), and the recorded value of each
    is cut to 100 characters. *)
Theorem xss_vectors_bounded (soup : node) (security : t) :
  ∃ vectors : list (gmap string string),
    potential_xss_vectors (check_content_security soup security)
    = Some vectors
    ∧ (length vectors ≤ 35)%nat
    ∧ Forall (fun vector : gmap string string =>
                ∃ v, vector !! "value" = Some v
                     ∧ (String.length v ≤ 100)%nat) vectors.
Proof.
  unfold check_content_security. cbn [potential_xss_vectors].
  eexists. split; [reflexivity|]. split.
  - rewrite length_app.
    match goal with
    | |- (length (risky_attrs ≫= ?f) + length (?l ≫= ?g) ≤ _)%nat =>
        assert (length (risky_attrs ≫= f) ≤ length risky_attrs * 5)%nat
          by (apply length_bind_le; intros attr;
              etrans; [apply (length_bind_le _ _ 1); by intros|];
              rewrite length_take; lia);
        assert (length (l ≫= g) ≤ length l * 1)%nat
          by (apply length_bind_le; by intros);
        assert (length l ≤ 5)%nat by (rewrite length_take; lia)
    end.
    cbn [risky_attrs length] in *. lia.
  - apply Forall_app. split.
    + apply Forall_bind, Forall_forall. intros attr _.
      apply Forall_bind, Forall_forall. intros element _.
      repeat constructor. eexists. split; [by simplify_map_eq|].
      apply (length_slice _ 0 100).
    + apply Forall_bind, Forall_forall. intros link _.
      repeat constructor. eexists. split; [by simplify_map_eq|].
      apply (length_slice _ 0 100).
Qed.

End form_security.

(** ** Keyboard, forms and contrast checks *)

Section checks.

Import Checks.

Lemma bind_nil_iff {A B} (f : A → list B) (l : list A) :
  l ≫= f = [] ↔ ∀ x, x ∈ l → f x = [].
Proof.
  induction l as [|x l IH]; [by split; [intros _ ? ?%elem_of_nil|]|].
  rewrite bind_cons. split.
  - intros [Hx Hl]%app_nil y [->|Hy]%elem_of_cons; [done|].
    by apply IH.
  - intros Hall. apply app_nil. split.
    + apply Hall. by left.
    + apply IH. intros y Hy. apply Hall. by right.
Qed.

Lemma tabindex_issue_nil (elem : node) :
  tabindex_issue elem = []
  ↔ ∀ tabindex, get elem "tabindex" = Some tabindex →
      tabindex = "" ∨ ∃ n, int_of_str tabindex 10 = Ok n ∧ n ≤ 0.
Proof.
  unfold tabindex_issue. destruct (get elem "tabindex") as [tabindex|].
  - case_bool_decide as Hempty.
    + split; [|done]. intros _ ? [= <-]. by left.
    + destruct (int_of_str tabindex 10) as [n|e] eqn:Hint.
      * destruct (Z.ltb_spec 0 n).
        -- split; [done|]. intros Hok.
           destruct (Hok tabindex eq_refl) as [?|(n' & ? & ?)]; [done|].
           assert (n' = n) by congruence. lia.
        -- split; [|done]. intros _ ? [= <-]. right. by exists n.
      * split; [done|]. intros Hok.
        destruct (Hok tabindex eq_refl) as [?|(n' & ? & ?)];
          [done|congruence].
  - split; [|done]. by intros _ ? [=].
Qed.

(** X11. Every interactive element contributes at most one tabindex
    issue, and the list of issues is empty exactly when every [tabindex] of
    an interactive element is empty or an integer literal that is zero or
    negative; a [tabindex] that [int] does not accept is always an issue. *)
Theorem tabindex_issues_spec (soup : node) :
  let kbd := check_keyboard_navigation soup in
  (length (Keyboard.tabindex_issues kbd)
   ≤ Keyboard.total_interactive_elements kbd)%nat
  ∧ (Keyboard.tabindex_issues kbd = []
     ↔ ∀ elem tabindex,
         elem ∈ find_all soup (named_any interactive) →
         get elem "tabindex" = Some tabindex →
         tabindex = "" ∨ ∃ n, int_of_str tabindex 10 = Ok n ∧ n ≤ 0).
Proof.
  cbn zeta. unfold check_keyboard_navigation.
  cbn [Keyboard.tabindex_issues Keyboard.total_interactive_elements].
  split.
  - etrans; [apply (length_bind_le _ _ 1)|lia].
    intros elem. unfold tabindex_issue.
    repeat case_match; cbn; lia.
  - rewrite bind_nil_iff. split.
    + intros Hall elem tabindex Hin. by apply tabindex_issue_nil, Hall.
    + intros Hall elem Hin. apply tabindex_issue_nil. intros tabindex.
      by apply Hall.
Qed.

(** The loop of [check_forms] adds, for every field, one to a counter per
    test that holds. *)
Lemma check_input_loop (soup : node) (inputs : list node)
    (init : FormFields.t) :
  let final := foldl (check_input soup) init inputs in
  let count (p : node → bool) := length (List.filter p inputs) in
  FormFields.total_forms final = FormFields.total_forms init
  ∧ FormFields.forms_with_labels final = FormFields.forms_with_labels init
  ∧ FormFields.total_inputs final = FormFields.total_inputs init
  ∧ FormFields.inputs_with_labels final
    = (FormFields.inputs_with_labels init
       + count (has_label_for soup) + count has_aria_label)%nat
  ∧ FormFields.inputs_with_placeholders final
    = (FormFields.inputs_with_placeholders init
       + count (fun input_elem => truthy (get input_elem "placeholder")))%nat
  ∧ FormFields.required_fields final
    = (FormFields.required_fields init
       + count (fun input_elem =>
                  truthy (get input_elem "required")
                  || bool_decide (get input_elem "aria-required"
                                  = Some "true")))%nat.
Proof.
  revert init. induction inputs as [|input_elem inputs IH]; intros init.
  - cbn. split_and!; (done || lia).
  - cbn [foldl].
    destruct (IH (check_input soup init input_elem))
      as (Hforms & Hwith & Htotal & Hlabels & Hplace & Hreq).
    cbn zeta in *. rewrite Hforms, Hwith, Htotal, Hlabels, Hplace, Hreq.
    cbn [check_input FormFields.total_forms FormFields.forms_with_labels
         FormFields.total_inputs FormFields.inputs_with_labels
         FormFields.inputs_with_placeholders FormFields.required_fields
         List.filter].
    split_and!; try done.
    + destruct (has_label_for soup input_elem),
        (has_aria_label input_elem); cbn [length]; lia.
    + destruct (truthy (get input_elem "placeholder")); cbn [length]; lia.
    + destruct (truthy (get input_elem "required") || _); cbn [length]; lia.
Qed.

(** X12. For every document the number of labelled inputs that
    [check_forms] reports is the number of fields with a matching [label]
    plus the number of fields with an ARIA label, so a field with both is
    counted twice and the count can reach twice the number of fields; the
    fields with a placeholder and the required fields are counted once
    each, and [forms_with_labels] stays 0. *)
Theorem form_fields_tallies (soup : node) :
  let form_analysis := check_forms soup in
  let inputs := find_all soup (named_any form_fields) in
  FormFields.total_inputs form_analysis = length inputs
  ∧ FormFields.inputs_with_labels form_analysis
    = (length (List.filter (has_label_for soup) inputs)
       + length (List.filter has_aria_label inputs))%nat
  ∧ (FormFields.inputs_with_labels form_analysis
     ≤ 2 * FormFields.total_inputs form_analysis)%nat
  ∧ (FormFields.inputs_with_placeholders form_analysis
     ≤ FormFields.total_inputs form_analysis)%nat
  ∧ (FormFields.required_fields form_analysis
     ≤ FormFields.total_inputs form_analysis)%nat
  ∧ FormFields.forms_with_labels form_analysis = 0%nat.
Proof.
  cbn zeta. unfold check_forms.
  set (inputs := find_all soup (named_any form_fields)).
  match goal with
  | |- context [foldl (check_input soup) ?init inputs] =>
      destruct (check_input_loop soup inputs init)
        as (_ & Hwith & Htotal & Hlabels & Hplace & Hreq)
  end.
  cbn zeta in *. rewrite Hwith, Htotal, Hlabels, Hplace, Hreq.
  cbn [FormFields.total_inputs FormFields.inputs_with_labels
       FormFields.inputs_with_placeholders FormFields.required_fields
       FormFields.forms_with_labels].
  pose proof (filter_le (has_label_for soup) inputs).
  pose proof (filter_le has_aria_label inputs).
  split_and!; try done; try lia.
  - match goal with |- context [List.filter ?p inputs] =>
      pose proof (filter_le p inputs) end. lia.
  - match goal with |- context [List.filter ?p inputs] =>
      pose proof (filter_le p inputs) end. lia.
Qed.

Section with_pow.
Variable libm_pow : float → float → float.

(** X13. The contrast report is capped: at most 10 issues, 10 compliant
    pairs and 20 colors of each kind are kept, and [has_issues], which is
    taken before the cap, holds exactly when the reported list of issues is
    not empty. *)
Theorem contrast_report_caps (soup : node) :
  let contrast := check_color_contrast libm_pow soup in
  (length (Contrast.issues contrast) ≤ 10)%nat
  ∧ (length (Contrast.compliant_pairs contrast) ≤ 10)%nat
  ∧ (length (Contrast.background_colors contrast) ≤ 20)%nat
  ∧ (length (Contrast.text_colors contrast) ≤ 20)%nat
  ∧ (Contrast.has_issues contrast = true ↔ Contrast.issues contrast ≠ []).
Proof.
  cbn zeta. unfold check_color_contrast.
  cbn [Contrast.issues Contrast.compliant_pairs Contrast.background_colors
       Contrast.text_colors Contrast.has_issues].
  rewrite !length_take. split_and!; try lia.
  rewrite bool_decide_eq_true.
  destruct (snd <$> List.filter fst _) as [|entry entries]; cbn; split;
    (done || lia).
Qed.

Lemma black_on_black color1 color2 :
  unrecognized color1 → unrecognized color2 →
  calculate_contrast_ratio libm_pow color1 color2 = Ok 1%float.
Proof.
  intros H1%parse_unrecognized H2%parse_unrecognized.
  unfold calculate_contrast_ratio. rewrite H1, H2. by vm_compute.
Qed.

(** X14. Colors that are written as names are all read as black: as soon
    as the style sheets give one background color and one text color in a
    syntax that is not recognized (a color keyword, for instance), the pair
    has the ratio 1.0 and the check reports contrast issues. *)
Theorem named_colors_flagged (soup : node) (bg_color text_color : string) :
  let colors := extract_css_colors (css_content soup) in
  bg_color ∈ Helpers.background colors →
  text_color ∈ Helpers.text colors →
  unrecognized bg_color → unrecognized text_color →
  Contrast.has_issues (check_color_contrast libm_pow soup) = true
  ∧ (true, {| Contrast.background := bg_color;
              Contrast.text := text_color;
              Contrast.ratio := 1 |}) ∈ rated_pairs libm_pow colors.
Proof.
  cbn zeta. intros Hbg Htext Hun1 Hun2.
  assert (Hin : (true, {| Contrast.background := bg_color;
                          Contrast.text := text_color;
                          Contrast.ratio := 1 |})
                ∈ rated_pairs libm_pow (extract_css_colors (css_content soup))).
  { unfold rated_pairs. apply list_elem_of_bind. exists bg_color.
    split; [|done]. apply list_elem_of_bind. exists text_color.
    split; [|done]. rewrite black_on_black by done.
    apply list_elem_of_singleton. by vm_compute. }
  split; [|done].
  unfold check_color_contrast. cbn [Contrast.has_issues].
  apply bool_decide_eq_true. rewrite length_fmap.
  apply list_elem_of_In in Hin.
  pose proof (proj2 (filter_In fst _ _) (conj Hin eq_refl)) as Hfilter.
  destruct (List.filter fst _); [done|cbn; lia].
Qed.

(** X15. A document without a [style] element yields no colors at all and
    no contrast issue, whatever else it contains. *)
Theorem no_style_no_issues (soup : node) :
  find_all soup (named "style") = [] →
  check_color_contrast libm_pow soup
  = {| Contrast.issues := [];
       Contrast.compliant_pairs := [];
       Contrast.background_colors := [];
       Contrast.text_colors := [];
       Contrast.has_issues := false |}.
Proof.
  intros Hstyle. unfold check_color_contrast, css_content.
  rewrite Hstyle. by vm_compute.
Qed.

End with_pow.

Lemma named_colors_flagged_witness :
  Contrast.has_issues
    (check_color_contrast (fun x _ => x)
       (Tag "[document]" ∅
          [Tag "style" ∅
             [NavigableString Stylesheet "p { background: white; color: navy }"]]))
  = true.
Proof.
  apply (named_colors_flagged (fun x _ => x)
           (Tag "[document]" ∅
              [Tag "style" ∅
                 [NavigableString Stylesheet "p { background: white; color: navy }"]])
           "white" "navy").
  - vm_compute. set_solver.
  - vm_compute. set_solver.
  - split; [reflexivity|left; reflexivity].
  - split; [reflexivity|left; reflexivity].
Defined.

Lemma no_style_no_issues_witness :
  Contrast.has_issues
    (check_color_contrast (fun x _ => x) Security.minimal_document) = false.
Proof.
  rewrite (no_style_no_issues (fun x _ => x) Security.minimal_document);
    reflexivity.
Defined.

End checks.

(** ** Pass thresholds and the overall score *)

Section thresholds.

Import Accessibility Checks Run.

Lemma wcag_closed_form (accessibility : findings) :
  let wcag := check_wcag_compliance accessibility in
  Level.score (level_a wcag) = level_a_points accessibility + 6
  ∧ Level.score (level_aa wcag)
    = level_a_points accessibility + level_aa_points accessibility + 8
  ∧ Level.passed (level_a wcag)
    = bool_decide (8 ≤ Level.score (level_a wcag))
  ∧ Level.passed (level_aa wcag)
    = bool_decide (12 ≤ Level.score (level_aa wcag))
  ∧ Level.percentage (level_aa wcag)
    = percentage_of (Level.score (level_aa wcag)) 15.
Proof.
  cbn zeta. unfold check_wcag_compliance, level_a_points, level_aa_points.
  cbn [level_a level_aa Level.score Level.passed Level.percentage].
  rewrite passed_level_a, passed_level_aa.
  split_and!; try done.
  - repeat case_bool_decide; destruct (heading_hierarchy_issues _);
      cbn; lia.
  - destruct (has_issues accessibility) as [[]|],
      (tabindex_issues accessibility);
      repeat case_bool_decide; destruct (heading_hierarchy_issues _);
      simplify_eq/=; lia.
Qed.

Lemma points_range (accessibility : findings) :
  0 ≤ level_a_points accessibility ≤ 4
  ∧ 0 ≤ level_aa_points accessibility ≤ 2.
Proof.
  unfold level_a_points, level_aa_points.
  repeat match goal with
  | |- context [Z.b2z ?b] => destruct b; cbn [Z.b2z]
  end; lia.
Qed.

Lemma aa_percentage_values (n : Z) :
  8 ≤ n ≤ 14 → percentage_of n 15 ∈ aa_percentages.
Proof.
  intros Hn.
  assert (n = 8 ∨ n = 9 ∨ n = 10 ∨ n = 11 ∨ n = 12 ∨ n = 13 ∨ n = 14)
    as Hcases by lia.
  clear Hn. unfold aa_percentages.
  repeat destruct Hcases as [-> | Hcases]; [..|subst n];
    match goal with
    | |- ?x ∈ _ => let v := eval vm_compute in x in
                   replace x with v by (vm_compute; reflexivity)
    end; set_solver.
Qed.

(** X16. Level A is passed exactly when at least two of its four
    conditional points are earned, and Level AA exactly when at least four
    of the six are.  The Level AA score lies between 8 and 14, so it never
    reaches its total of 15, and the percentage that goes into the overall
    score is one of 53.3, 60.0, 66.7, 73.3, 80.0, 86.7 and 93.3. *)
Theorem wcag_pass_thresholds (accessibility : findings) :
  let wcag := check_wcag_compliance accessibility in
  (Level.passed (level_a wcag) = true ↔ 2 ≤ level_a_points accessibility)
  ∧ (Level.passed (level_aa wcag) = true
     ↔ 4 ≤ level_a_points accessibility + level_aa_points accessibility)
  ∧ 8 ≤ Level.score (level_aa wcag) ≤ 14
  ∧ Level.score (level_aa wcag) < Level.total (level_aa wcag)
  ∧ Level.percentage (level_aa wcag) ∈ aa_percentages.
Proof.
  cbn zeta.
  destruct (wcag_closed_form accessibility)
    as (Ha & Haa & Hpa & Hpaa & Hpct).
  destruct (points_range accessibility) as [Hra Hraa]. cbn zeta in *.
  rewrite Hpa, Hpaa, Hpct, !bool_decide_eq_true, Ha, Haa.
  split_and!; try lia.
  - change (Level.total (level_aa (check_wcag_compliance accessibility)))
      with 15.
    lia.
  - apply aa_percentage_values. lia.
Qed.

Lemma overall_table :
  forallb (fun perf =>
    forallb (fun aa =>
      forallb (fun sec => overall_in_range perf aa sec) (seqZ 0 101))
      (seqZ 8 7))
    (seqZ 50 51) = true.
Proof. vm_compute. reflexivity. Qed.

Lemma overall_bounds (perf aa sec : Z) :
  50 ≤ perf ≤ 100 → 8 ≤ aa ≤ 14 → 0 ≤ sec ≤ 100 →
  overall_in_range perf aa sec = true.
Proof.
  intros Hperf Haa Hsec. pose proof overall_table as Htable.
  rewrite forallb_forall in Htable.
  assert (List.In perf (seqZ 50 51)) as Hin_perf
    by (apply list_elem_of_In, elem_of_seqZ; lia).
  apply Htable in Hin_perf. rewrite forallb_forall in Hin_perf.
  assert (List.In aa (seqZ 8 7)) as Hin_aa
    by (apply list_elem_of_In, elem_of_seqZ; lia).
  apply Hin_perf in Hin_aa. rewrite forallb_forall in Hin_aa.
  apply Hin_aa, list_elem_of_In, elem_of_seqZ. lia.
Qed.

(** X17. Fed with what the accessibility and security analyzers store,
    [_calculate_scores] always returns: the performance score lies between
    50 and 100, the security score between 0 and 100, and the overall score
    between 41.3 and 97.3, whatever the page, the load time and the size
    are.  No page reaches an overall score of 100. *)
Theorem pipeline_overall (load_time size_mb : option float)
    (accessibility : findings) (security : Security.t) :
  let wcag := check_wcag_compliance accessibility in
  let stored := Security.calculate_security_score security in
  ∃ scores : Core.scores,
    Core._calculate_scores (gather load_time size_mb wcag stored) = Ok scores
    ∧ 50 ≤ Core.performance scores ≤ 100
    ∧ 0 ≤ Core.security scores ≤ 100
    ∧ Core.accessibility scores ∈ aa_percentages
    ∧ PrimFloat.leb 41.3 (Core.overall scores) = true
    ∧ PrimFloat.leb (Core.overall scores) 97.3 = true.
Proof.
  cbn zeta.
  destruct (wcag_closed_form accessibility) as (_ & Haa & _ & _ & Hpct).
  destruct (points_range accessibility) as [Hra Hraa]. cbn zeta in *.
  set (wcag := check_wcag_compliance accessibility) in *.
  set (aa := Level.score (level_aa wcag)) in *.
  assert (Haa_range : 8 ≤ aa ≤ 14) by lia.
  pose proof (score_closed_form security) as Hsec.
  pose proof (total_deductions_nonneg security) as Hded.
  set (sec := Z.max 0 (100 - Security.total_deductions security)) in *.
  assert (Hsec_range : 0 ≤ sec ≤ 100) by lia.
  unfold Core._calculate_scores, gather.
  cbn [Core.total_load_time Core.response_size_mb Core.wcag_compliance
       Core.security_score Core.Wcag.level_aa_percentage default].
  rewrite Hsec, Hpct. cbn [default from_option id].
  match goal with
  | |- context [float_of_int (Z.max 0 ?p)] => set (perf := Z.max 0 p)
  end.
  assert (Hperf : 50 ≤ perf ≤ 100).
  { subst perf. cbn zeta.
    repeat match goal with
    | |- context [PrimFloat.ltb ?a ?b] => destruct (PrimFloat.ltb a b)
    end; lia. }
  clearbody perf.
  pose proof (overall_bounds perf aa sec Hperf Haa_range Hsec_range) as Hin.
  unfold overall_in_range, overall_of in Hin.
  destruct (float_of_int perf) as [p|]; [|done].
  destruct (float_of_int sec) as [s|]; [|done].
  apply andb_true_iff in Hin as [Hlo Hhi].
  eexists. split; [reflexivity|].
  cbn [Core.performance Core.security Core.accessibility Core.overall].
  split_and!; try lia; try done.
  by apply aa_percentage_values.
Qed.

End thresholds.

(** ** Headings of a document *)

Section headings.

Import Accessibility Checks.

Implicit Types (levels : list Z) (soup : node).

Lemma check_heading_hierarchy_levels (headings : list (Z * string)) :
  check_heading_hierarchy headings = true
  ↔ headings.*1 ≠ [] ∧ ((1 ∉ headings.*1) ∨ skips_level headings.*1).
Proof.
  destruct headings as [|heading headings].
  { cbn. split; [done|]. by intros [? _]. }
  unfold check_heading_hierarchy.
  set (levels := (heading :: headings).*1).
  case_bool_decide as Hone; cbn [negb].
  - rewrite skip_loop_spec. split.
    + intros Hskip. split; [done|]. by right.
    + by intros [_ [?|?]].
  - split; [|done]. intros _. split; [done|]. by left.
Qed.

Lemma skips_level_cons (x : Z) levels :
  skips_level (x :: levels)
  ↔ (∃ y, head levels = Some y ∧ y - x > 1) ∨ skips_level levels.
Proof.
  split.
  - intros ([|i] & a & b & Ha & Hb & Hgt).
    + left. exists b. destruct levels; simplify_eq/=. done.
    + right. by exists i, a, b.
  - intros [(y & Hy & Hgt) | (i & a & b & Ha & Hb & Hgt)].
    + exists 0%nat, x, y. destruct levels; simplify_eq/=. done.
    + by exists (S i), a, b.
Qed.

(** In an ascending list a level is skipped exactly when some level of the
    list that is not its least lacks its predecessor. *)
Lemma skips_level_sorted levels :
  StronglySorted Z.le levels →
  skips_level levels
  ↔ ∃ a b, a ∈ levels ∧ b ∈ levels ∧ a < b ∧ (b - 1 ∉ levels).
Proof.
  induction 1 as [|x levels Hsorted IH Hle].
  { split.
    - by intros (i & a & b & Ha & _).
    - intros (a & b & Ha & _). by apply elem_of_nil in Ha. }
  rewrite Forall_forall in Hle.
  rewrite skips_level_cons, IH. split.
  - intros [(y & Hy & Hgt) | (a & b & Ha & Hb & Hlt & Hpred)].
    + exists x, y. destruct levels as [|y' levels]; simplify_eq/=.
      split_and!; [left|right; left|lia|].
      apply StronglySorted_inv in Hsorted as [_ Hley].
      rewrite Forall_forall in Hley.
      intros [Heq | [Heq | Hin]%elem_of_cons]%elem_of_cons; [lia..|].
      apply Hley in Hin. lia.
    + exists a, b. split_and!; [by right..|done|].
      intros [Heq | Hin]%elem_of_cons; [|done].
      apply Hle in Ha as Hxa. assert (a = b - 1) as -> by lia. done.
  - intros (a & b & Ha & Hb & Hlt & Hpred).
    destruct levels as [|y levels].
    { apply list_elem_of_singleton in Ha, Hb. lia. }
    destruct (decide (y - x > 1)) as [Hgt | Hsmall].
    { left. by exists y. }
    right. exists y, b.
    assert (x ≤ a).
    { apply elem_of_cons in Ha as [->|Ha]; [lia|by apply Hle]. }
    assert (x ≤ y) by (apply Hle; left).
    assert (b ∈ y :: levels) as Hb'.
    { apply elem_of_cons in Hb as [->|Hb]; [lia|done]. }
    assert (b ≠ y).
    { intros ->. apply Hpred.
      assert (y - 1 = x) as -> by lia. left. }
    apply StronglySorted_inv in Hsorted as [_ Hley].
    rewrite Forall_forall in Hley.
    assert (y ≤ b).
    { apply elem_of_cons in Hb' as [->|Hb']; [lia|by apply Hley]. }
    split_and!; [left|done|lia|].
    intros Hin. apply Hpred. by right.
Qed.

Lemma levels_of_all_headings soup :
  (all_headings soup).*1
  = i ← seq 1 6; replicate (heading_count soup i) (Z.of_nat i).
Proof.
  assert (Hone : ∀ (c : Z) (f : node → string) (found : list node),
             (h ← found; [(c, f h)]).*1 = replicate (length found) c).
  { intros c f found. induction found as [|h found IH]; [done|].
    cbn. by rewrite <- IH. }
  unfold all_headings, heading_count.
  generalize (seq 1 6). intros levels.
  induction levels as [|i levels IH]; [done|].
  rewrite !bind_cons, fmap_app, IH. f_equal. apply Hone.
Qed.

Lemma elem_of_levels (count : nat → nat) (x : Z) (start len : nat) :
  x ∈ (i ← seq start len; replicate (count i) (Z.of_nat i))
  ↔ ∃ i : nat,
      (start ≤ i < start + len)%nat ∧ (0 < count i)%nat ∧ x = Z.of_nat i.
Proof.
  rewrite list_elem_of_bind. split.
  - intros (i & [-> Hcount]%elem_of_replicate & Hi%elem_of_seq).
    exists i. split_and!; [lia..|done].
  - intros (i & Hi & Hcount & ->). exists i. split.
    + apply elem_of_replicate. split; [done|lia].
    + apply elem_of_seq. lia.
Qed.

Lemma levels_sorted (count : nat → nat) (start len : nat) :
  StronglySorted Z.le
    (i ← seq start len; replicate (count i) (Z.of_nat i)).
Proof.
  revert start. induction len as [|len IH]; intros start.
  { constructor. }
  cbn [seq]. rewrite bind_cons. apply StronglySorted_app_2.
  - intros x y [-> _]%elem_of_replicate (i & Hi & _ & ->)%elem_of_levels.
    lia.
  - generalize (count start). intros n.
    induction n as [|n IHn]; cbn; constructor; [done|].
    apply Forall_forall. by intros y [-> _]%elem_of_replicate.
  - apply IH.
Qed.

(** X18. The headings are handed to the hierarchy check grouped by level,
    all [h1] first, then all [h2], and so on, not in the order of the
    document.  So [check_semantic_structure] reports no hierarchy issue
    exactly when every heading level in use from [h2] to [h6] has a heading
    of the level just above it somewhere in the document: the levels in
    use are [h1] to [hk] for some [k], wherever the headings stand. *)
Theorem heading_issues_by_level soup :
  Semantic.heading_hierarchy_issues (check_semantic_structure soup) = false
  ↔ ∀ i : nat,
      (2 ≤ i ≤ 6)%nat →
      (0 < heading_count soup i)%nat → (0 < heading_count soup (i - 1))%nat.
Proof.
  cbn [check_semantic_structure Semantic.heading_hierarchy_issues].
  rewrite <- not_true_iff_false, check_heading_hierarchy_levels,
    levels_of_all_headings.
  set (levels := _ ≫= _).
  assert (Hin : ∀ x, x ∈ levels
            ↔ ∃ i : nat, (1 ≤ i < 1 + 6)%nat
                ∧ (0 < heading_count soup i)%nat ∧ x = Z.of_nat i)
    by (intros x; apply elem_of_levels).
  rewrite (skips_level_sorted levels) by apply levels_sorted.
  split.
  - intros Hno i Hi Hcount.
    destruct (decide (0 < heading_count soup (i - 1))%nat) as [|Hzero];
      [done|].
    exfalso. apply Hno.
    assert (Z.of_nat i ∈ levels) as Hi_in by (apply Hin; exists i; lia).
    split; [by intros Hnil; rewrite Hnil in Hi_in; apply elem_of_nil in Hi_in|].
    destruct (decide (1 ∈ levels)) as [Hone|]; [|by left].
    right. exists 1, (Z.of_nat i). split_and!; [done..|lia|].
    intros (j & Hj & Hcount_j & Heq)%Hin.
    assert (j = (i - 1)%nat) as -> by lia. lia.
  - intros Hall [Hne Hissue].
    assert (Hdown : ∀ i : nat,
               (1 ≤ i ≤ 6)%nat → (0 < heading_count soup i)%nat →
               (0 < heading_count soup 1)%nat).
    { intros i. induction i as [|i IH]; [lia|].
      intros Hi Hcount. destruct (decide (i = 0%nat)) as [->|]; [done|].
      apply IH; [lia|].
      replace i with (S i - 1)%nat by lia. apply Hall; [lia|done]. }
    destruct Hissue as [Hone | (a & b & Ha & Hb & Hlt & Hpred)].
    + destruct levels as [|x levels'] eqn:Hlevels; [done|].
      assert (x ∈ x :: levels') as (i & Hi & Hcount & _)%Hin by left.
      apply Hone, Hin. exists 1%nat. split_and!; [lia..| |done].
      apply (Hdown i); [lia|done].
    + apply Hin in Ha as (j & Hj & _ & ->).
      apply Hin in Hb as (i & Hi & Hcount & ->).
      apply Hpred, Hin. exists (i - 1)%nat. split_and!; [lia..| |lia].
      apply Hall; [lia|done].
Qed.

End headings.

(** ** The order of the two colors *)

Section contrast_order.

Lemma SFcompare_swap (x y : spec_float) :
  SFcompare y x = CompOpp <$> SFcompare x y.
Proof.
  destruct x as [sx|sx| |sx mx ex], y as [sy|sy| |sy my ey]; cbn;
    try done; try (by destruct sx); try (by destruct sy);
    try (by destruct sx, sy).
  destruct sx, sy; try done; f_equal;
    rewrite (Z.compare_antisym ey ex);
    destruct (ey ?= ex); cbn; try done;
    rewrite (Pos.compare_cont_antisym mx my Eq); cbn;
    by destruct (Pos.compare_cont Eq mx my).
Qed.

Lemma SFcompare_Eq (x y : spec_float) :
  SFcompare x y = Some Eq →
  x = y ∨ ∃ sx sy, x = S754_zero sx ∧ y = S754_zero sy.
Proof.
  destruct x as [sx|sx| |sx mx ex], y as [sy|sy| |sy my ey]; cbn;
    try done; try (by destruct sx); try (by destruct sy);
    try (by destruct sx, sy; intros; simplify_eq; left).
  - intros _. right. by exists sx, sy.
  - intros Hcmp. left.
    destruct sx, sy; try done;
      destruct (ex ?= ey) eqn:He; try done;
      apply Z.compare_eq in He as ->;
      destruct (Pos.compare_cont Eq mx my) eqn:Hm; try done;
      apply Pos.compare_eq in Hm as ->; done.
Qed.

Lemma ltb_swap (x y : float) :
  PrimFloat.ltb x y = true → PrimFloat.ltb y x = false.
Proof.
  rewrite !FloatAxioms.ltb_spec. unfold SFltb. rewrite (SFcompare_swap (Prim2SF x) (Prim2SF y)).
  by destruct (SFcompare (Prim2SF x) (Prim2SF y)) as [[]|].
Qed.

Lemma is_nan_false (x : float) :
  is_nan x = false → Prim2SF x ≠ S754_nan.
Proof.
  unfold is_nan. rewrite FloatAxioms.eqb_spec. intros Hx Hnan.
  rewrite Hnan in Hx. done.
Qed.

Lemma quotient_operands (x y : float) :
  is_nan ((x + 0.05) / (y + 0.05)) = false →
  Prim2SF x ≠ S754_nan ∧ Prim2SF y ≠ S754_nan.
Proof.
  intros Hq%is_nan_false. rewrite div_spec, !add_spec in Hq.
  split; intros Hnan; rewrite Hnan in Hq; apply Hq.
  - done.
  - change (SF64add S754_nan (Prim2SF 0.05)) with S754_nan.
    by destruct (SF64add (Prim2SF x) (Prim2SF 0.05)).
Qed.

(** Two luminances neither of which is below the other give the same
    sum: they are the same number, or the two zeros. *)
Lemma same_luminance (x y : float) :
  PrimFloat.ltb x y = false → PrimFloat.ltb y x = false →
  Prim2SF x ≠ S754_nan → Prim2SF y ≠ S754_nan →
  (x + 0.05 = y + 0.05)%float.
Proof.
  rewrite !FloatAxioms.ltb_spec. unfold SFltb. rewrite (SFcompare_swap (Prim2SF x) (Prim2SF y)).
  intros Hxy Hyx Hx Hy. apply Prim2SF_inj. rewrite !add_spec.
  destruct (SFcompare (Prim2SF x) (Prim2SF y)) as [[]|] eqn:Hcmp; try done.
  - apply SFcompare_Eq in Hcmp as [-> | (sx & sy & -> & ->)]; [done|].
    by destruct sx, sy.
  - by destruct (Prim2SF x), (Prim2SF y).
Qed.

Variable libm_pow : float → float → float.

(** X19. The contrast ratio does not depend on the order of the two
    colors: when [calculate_contrast_ratio] returns a number for a pair of
    colors, it returns the same number for the pair the other way round. *)
Theorem contrast_ratio_symmetric (color1 color2 : string) (ratio : float) :
  calculate_contrast_ratio libm_pow color1 color2 = Ok ratio →
  is_nan ratio = false →
  calculate_contrast_ratio libm_pow color2 color1 = Ok ratio.
Proof.
  unfold calculate_contrast_ratio.
  destruct (parse_color color1) as [[[r1 g1] b1]|]; [|done].
  destruct (parse_color color2) as [[[r2 g2] b2]|]; [|done].
  cbn.
  destruct (get_luminance libm_pow r1 g1 b1) as [l1|]; [|done].
  destruct (get_luminance libm_pow r2 g2 b2) as [l2|]; [|done].
  cbn.
  destruct (PrimFloat.ltb l2 l1) eqn:H21.
  { by rewrite (ltb_swap _ _ H21). }
  destruct (PrimFloat.ltb l1 l2) eqn:H12; [done|].
  unfold float_truediv.
  destruct (PrimFloat.eqb (l1 + 0.05) 0) eqn:Hzero; [done|].
  intros [= <-] [Hl2 Hl1]%quotient_operands.
  pose proof (same_luminance l1 l2 H12 H21 Hl1 Hl2) as Hsame.
  rewrite Hsame in Hzero |- *. by rewrite Hzero.
Qed.

End contrast_order.

Lemma contrast_ratio_symmetric_witness :
  calculate_contrast_ratio (fun x _ => x) "#ffffff" "#000000" = Ok 21%float.
Proof.
  apply (contrast_ratio_symmetric (fun x _ => x) "#000000" "#ffffff");
    vm_compute; reflexivity.
Defined.

(** ** Hexadecimal colors *)

Section hex_colors.

Import Checks.

Lemma hex_pair_value (n : Z) :
  0 ≤ n < 256 → int_of_str (hex_pair n) 16 = Ok n.
Proof.
  intros Hn.
  assert (Hall : forallb
            (fun k => match int_of_str (hex_pair (Z.of_nat k)) 16 with
                      | Ok m => m =? Z.of_nat k
                      | Raise _ => false
                      end)
            (seq 0 256) = true) by (vm_compute; reflexivity).
  rewrite forallb_forall in Hall.
  specialize (Hall (Z.to_nat n)). rewrite Z2Nat.id in Hall by lia.
  destruct (int_of_str (hex_pair n) 16) as [m|].
  - f_equal. apply Z.eqb_eq, Hall, in_seq. lia.
  - discriminate Hall. apply in_seq. lia.
Qed.

(** X20. A color written as [#] and three pairs of hexadecimal digits
    parses to the three channel values divided by 255, and whatever
    follows the sixth digit, such as the two digits of an alpha channel,
    is ignored. *)
Theorem parse_hex_color (r g b : Z) (rest : string) :
  0 ≤ r < 256 → 0 ≤ g < 256 → 0 ≤ b < 256 →
  ∃ x y z : float,
    int_truediv_float r 255 = Ok x
    ∧ int_truediv_float g 255 = Ok y
    ∧ int_truediv_float b 255 = Ok z
    ∧ parse_color ("#" +:+ hex_pair r +:+ hex_pair g +:+ hex_pair b +:+ rest)
      = Ok (x, y, z).
Proof.
  intros Hr Hg Hb.
  destruct (small_channel r) as [x Hx]; [lia|].
  destruct (small_channel g) as [y Hy]; [lia|].
  destruct (small_channel b) as [z Hz]; [lia|].
  exists x, y, z. split_and!; [done..|].
  pose proof (hex_pair_value r Hr) as Hpr.
  pose proof (hex_pair_value g Hg) as Hpg.
  pose proof (hex_pair_value b Hb) as Hpb.
  unfold hex_pair in *.
  generalize dependent (hex_digit (r / 16)).
  generalize dependent (hex_digit (r mod 16)).
  generalize dependent (hex_digit (g / 16)).
  generalize dependent (hex_digit (g mod 16)).
  generalize dependent (hex_digit (b / 16)).
  generalize dependent (hex_digit (b mod 16)).
  intros b2 b1 Hpb g2 g1 Hpg r2 r1 Hpr.
  unfold parse_color.
  change ("#" +:+ String r1 (String r2 "") +:+ String g1 (String g2 "")
          +:+ String b1 (String b2 "") +:+ rest)
    with (String "#" (String r1 (String r2 (String g1 (String g2
            (String b1 (String b2 rest))))))).
  assert (startswith (String "#" (String r1 (String r2 (String g1 (String g2
            (String b1 (String b2 rest))))))) "#" = true) as -> by done.
  unfold slice.
  cbn [String.length Nat.sub String.substring].
  assert (Hempty : ∀ s, String.substring 0 0 s = "") by (by intros []).
  rewrite Hempty. unfold channel. rewrite Hpr, Hpg, Hpb. cbn.
  rewrite Hx. cbn. rewrite Hy. cbn. by rewrite Hz.
Qed.

End hex_colors.

Lemma parse_hex_color_witness :
  ∃ x y z : float,
    int_truediv_float 255 255 = Ok x
    ∧ int_truediv_float 128 255 = Ok y
    ∧ int_truediv_float 0 255 = Ok z
    ∧ parse_color "#ff800080" = Ok (x, y, z).
Proof. apply (parse_hex_color 255 128 0 "80"); lia. Defined.
